(** * aw-workers: a pool of worker threads, its message envelope, the
    thread-side worker unit and the worker loader.

    The TypeScript sources are embedded as executable Rocq functions.
    Asynchronous methods become state-passing functions that return a
    completion (a value or a thrown value), the new state and the list of
    observable events they caused; the answer of the thread on the other
    side of a handshake is an argument of the call. *)

From stdpp Require Import gmap strings list fin_maps pretty.

Local Open Scope string_scope.
Local Open Scope Z_scope.
Local Open Scope list_scope.

(** ** JavaScript numbers and values *)

(** The numbers the pool computes with: [threadsCount] and
    [inviolableThreadsCount] are optional fields of type [number], so a
    value is [undefined], [NaN] or a number. Only integral numbers are
    modelled. *)
Module number.

Inductive t := Undefined | NaN | Int (z : Z).

(** [a > b]: false as soon as one side converts to [NaN]. *)
Definition gt (a b : t) : bool :=
  match a, b with
  | Int x, Int y => bool_decide (y < x)
  | _, _ => false
  end.

(** [a < b] *)
Definition lt (a b : t) : bool :=
  match a, b with
  | Int x, Int y => bool_decide (x < y)
  | _, _ => false
  end.

(** [a === 0] *)
Definition is_zero (a : t) : bool :=
  match a with
  | Int 0 => true
  | _ => false
  end.

(** [isNaN(a)]: [undefined] converts to [NaN]. *)
Definition isNaN (a : t) : bool :=
  match a with
  | Int _ => false
  | _ => true
  end.

(** [a - b] *)
Definition sub (a b : t) : t :=
  match a, b with
  | Int x, Int y => Int (x - y)
  | _, _ => NaN
  end.

(** A parameter with default value [d]: the default replaces [undefined]. *)
Definition or_default (d : t) (a : t) : t :=
  match a with
  | Undefined => d
  | _ => a
  end.

(** How often the body of [for (let i = 0; i < n; i++)] runs. *)
Definition iterations (n : t) : nat :=
  match n with
  | Int z => Z.to_nat z
  | _ => O
  end.

End number.

(** Values of type [unknown] that travel as message data. *)
#[warnings="-register-all"]
Inductive JsValue :=
| VUndefined
| VNull
| VBool (b : bool)
| VNumber (z : Z)
| VString (s : string)
| VObject (props : list (string * JsValue)).

(** The result of running a method: it returns or it throws (an [async]
    method resolves or rejects), or it stays suspended on a promise that
    never settles. *)
Inductive Completion (E A : Type) :=
| Return (a : A)
| Throw (e : E)
| Pending.
Arguments Return {E A} a.
Arguments Throw {E A} e.
Arguments Pending {E A}.

(** ** worker.utils *)

(** [getWorkersCount]; [cpus] is [os.cpus().length]. *)
Definition getWorkersCount (cpus : Z)
    (threadsCount inviolableThreadsCount : number.t) : number.t :=
  let inviolableThreadsCount :=
    number.or_default (number.Int 0) inviolableThreadsCount in
  if number.is_zero threadsCount || number.isNaN threadsCount
  then number.sub (number.Int cpus) inviolableThreadsCount
  else threadsCount.

(** ** worker-message *)

(** An object used as an error: an [ErrorJson] literal or a raised [Error]
    instance cast to it. [enumerable] holds its own enumerable properties,
    the ones a rest pattern copies; [hidden] holds what a property read
    still finds but a rest pattern skips (the own non-enumerable [message]
    and [stack] and the inherited [name] of an [Error] instance). An
    object literal has no hidden part. *)
Record ErrorJson := {
  enumerable : gmap string JsValue;
  hidden : gmap string JsValue
}.

(** [new Error(message)]: [message] and [stack] are own properties that
    are not enumerable, [name] comes from the prototype. *)
Definition newError (message stack : string) : ErrorJson :=
  {| enumerable := ∅;
     hidden :=
       <["name" := VString "Error"]>
         (<["stack" := VString stack]> {[ "message" := VString message ]}) |}.

Module WorkerMessageType.
Definition Error := "error".
Definition Info := "info".
Definition Warning := "warning".
Definition Task := "task".
Definition System := "system".
End WorkerMessageType.

Module WorkerMessageName.
Definition Setup := "setup".
Definition SetupComplete := "setup_complete".
Definition SetupFailure := "setup_failure".
Definition Load := "load".
Definition LoadComplete := "load_complete".
Definition LoadFailure := "load_failure".
Definition Dispose := "dispose".
Definition DisposeComplete := "dispose_complete".
Definition DisposeFailure := "dispose_failure".
Definition RunTask := "run_task".
Definition PassData := "pass_data".
Definition DataPassed := "data_passed".
Definition TaskResolved := "task_resolved".
Definition TaskRejected := "task_rejected".
Definition TaskProgress := "task_progress".
End WorkerMessageName.

(** The flat record that crosses the thread boundary
    ([WorkerMessageContent]); [error] is an optional field. *)
Module WorkerMessageContent.
Record t := mk {
  workerId : Z;
  type : string;
  name : string;
  data : JsValue;
  error : option ErrorJson
}.
End WorkerMessageContent.

Module WorkerMessage.

Record t := mk {
  workerId : Z;
  type : string;
  name : string;
  data : JsValue;
  error : option ErrorJson
}.

(** [error[key]] *)
Definition prop (error : ErrorJson) (key : string) : JsValue :=
  match enumerable error !! key with
  | Some v => v
  | None => default VUndefined (hidden error !! key)
  end.

(** [const { message, stack, name: errorName, ...rest } = error;
     errorJson = { message, stack, name: errorName, ...rest }] *)
Definition errorJson (error : ErrorJson) : ErrorJson :=
  let message := prop error "message" in
  let stack := prop error "stack" in
  let errorName := prop error "name" in
  let rest :=
    delete "name" (delete "stack" (delete "message" (enumerable error))) in
  {| enumerable :=
       rest ∪ <["name" := errorName]>
                (<["stack" := stack]> (<["message" := message]> ∅));
     hidden := ∅ |}.

(** The empty object literal. *)
Definition emptyObject : ErrorJson := {| enumerable := ∅; hidden := ∅ |}.

(** [WorkerMessage.create]: an object is truthy, whatever it holds. *)
Definition create (content : WorkerMessageContent.t) : t :=
  let errorJson :=
    match WorkerMessageContent.error content with
    | Some error => Some (errorJson error)
    | None => None
    end in
  mk (WorkerMessageContent.workerId content)
     (WorkerMessageContent.type content)
     (WorkerMessageContent.name content)
     (WorkerMessageContent.data content)
     errorJson.

(** [toJson] *)
Definition toJson (this : t) : WorkerMessageContent.t :=
  let errorJson :=
    match error this with
    | Some error => errorJson error
    | None => emptyObject
    end in
  WorkerMessageContent.mk (workerId this) (type this) (name this)
    (data this) (Some errorJson).

Definition runTask (workerId : Z) (value : JsValue) : t :=
  mk workerId WorkerMessageType.Info WorkerMessageName.RunTask value None.

Definition use (workerId : Z) (value : JsValue) : t :=
  mk workerId WorkerMessageType.Info WorkerMessageName.PassData value None.

Definition taskResolved (workerId : Z) (value : JsValue) : t :=
  mk workerId WorkerMessageType.Info WorkerMessageName.TaskResolved
     value None.

Definition taskRejected (workerId : Z) (error : option ErrorJson) : t :=
  mk workerId WorkerMessageType.Error WorkerMessageName.TaskRejected
     VNull error.

Definition taskProgress (workerId : Z) (value : JsValue) : t :=
  mk workerId WorkerMessageType.Info WorkerMessageName.TaskProgress
     value None.

Definition isTaskResolved (this : t) : bool :=
  String.eqb (name this) WorkerMessageName.TaskResolved.

Definition isTaskRejected (this : t) : bool :=
  String.eqb (name this) WorkerMessageName.TaskRejected.

Definition isTaskProgress (this : t) : bool :=
  String.eqb (name this) WorkerMessageName.TaskProgress.

End WorkerMessage.

(** ** worker: the unit that runs inside the thread *)

Inductive TaskStatus := task_resolved | task_rejected | task_progress.

Module Worker.

(** A [Worker] instance together with the port of its thread:
    [parentPort] lists the records posted so far, oldest first. *)
Record t := mk {
  threadId : Z;
  isRejected : bool;
  parentPort : list WorkerMessageContent.t
}.

(** [new Worker()] in thread [threadId] whose port holds [port]. *)
Definition new (threadId : Z) (port : list WorkerMessageContent.t) : t :=
  mk threadId false port.

Definition postMessage (content : WorkerMessageContent.t) (this : t) : t :=
  mk (threadId this) (isRejected this) (parentPort this ++ [content]).

(** [resolve]: no [return] is reached when the flag is set, so the call
    yields [undefined], here [None]. *)
Definition resolve (data : JsValue) (this : t) : option TaskStatus * t :=
  if bool_decide (isRejected this = false) then
    let this :=
      postMessage
        (WorkerMessage.toJson
           (WorkerMessage.taskResolved (threadId this) data)) this in
    (Some task_resolved, this)
  else (None, this).

Definition reject (error : option ErrorJson) (this : t)
    : option TaskStatus * t :=
  let this :=
    postMessage
      (WorkerMessage.toJson
         (WorkerMessage.taskRejected (threadId this) error)) this in
  let this := mk (threadId this) true (parentPort this) in
  (Some task_rejected, this).

Definition progress (data : JsValue) (this : t) : option TaskStatus * t :=
  let this :=
    postMessage
      (WorkerMessage.toJson
         (WorkerMessage.taskProgress (threadId this) data)) this in
  (Some task_progress, this).

(** One call of the settle interface, and a sequence of them. *)
Inductive Call :=
| Resolve (data : JsValue)
| Reject (error : option ErrorJson)
| Progress (data : JsValue).

Definition call (c : Call) (this : t) : option TaskStatus * t :=
  match c with
  | Resolve data => resolve data this
  | Reject error => reject error this
  | Progress data => progress data this
  end.

Definition calls (cs : list Call) (this : t) : t :=
  foldl (fun w c => (call c w).2) this cs.

Definition isReject (c : Call) : bool :=
  match c with
  | Reject _ => true
  | _ => false
  end.

(** The records a call added to the port. *)
Definition posted (c : Call) (this : t) : list WorkerMessageContent.t :=
  drop (length (parentPort this)) (parentPort (call c this).2).

End Worker.

(** ** worker-loader *)

Inductive Exception :=
| UndefinedPointerError (message : string)
| Error (message : string)
| TypeError (message : string).

(** [filePath.endsWith(suffix)] *)
Definition endsWith (s suffix : string) : bool :=
  let n := String.length s in
  let m := String.length suffix in
  bool_decide (m ≤ n)%nat && String.eqb (String.substring (n - m) m s) suffix.

(** A class that can be instantiated as a worker, known by its label. *)
Inductive WorkerClass := Class (label : string).

(** What the loader sees of Node: the working directory, [path.resolve],
    [fs.existsSync], and the [default] export of [require(path)] ([None]
    when the module has none). *)
Record Node := {
  cwd : string;
  resolve : list string → string;
  existsSync : string → bool;
  requireDefault : string → option WorkerClass
}.

(** [buildPath] (registering ts-node has no effect on the result). *)
Definition buildPath (node : Node) (filePath : string) : string :=
  if endsWith filePath ".ts"
  then resolve node [cwd node; "src"; filePath]
  else resolve node
         [cwd node; "build";
          filePath
          +:+ (if endsWith filePath ".js" then EmptyString else ".js")].

(** The double quote character. *)
Definition dquote : string := String (Ascii.ascii_of_nat 34) EmptyString.

(** The message of [UndefinedPointerError]. *)
Definition undefinedPointerMessage : string :=
  "Undefined pointer. The worker loader does not know which Worker class to initialize. If you use only one class, override your worker loader's "
  +:+ dquote +:+ "load" +:+ dquote
  +:+ " method so that it returns instance of your worker instead of calling super.load()".

(** The message of the error raised when neither a file nor a binding
    answers to [pointer]. *)
Definition workerNotFoundMessage (pointer : string) : string :=
  "A valid path to a worker was not specified or a worker was not assigned to the given name "
  +:+ pointer.

(** An instance made by [new WorkerClass(workerConstructorArgs)]; [address]
    is its identity. *)
Record WorkerInstance := {
  address : nat;
  classOf : WorkerClass;
  constructorArgs : option (gmap string JsValue)
}.

Module DefaultWorkerLoader.

Record t := mk {
  bindings : gmap string WorkerClass;
  sharedData : JsValue
}.

(** [!pointer] for a pointer that is a string, or [undefined] / [null]
    ([None]). *)
Definition falsy (pointer : option string) : bool :=
  match pointer with
  | None => true
  | Some s => String.eqb s EmptyString
  end.

(** [new WorkerClass(workerConstructorArgs)]; [heap] counts the objects
    allocated so far, the new one takes the next address. Calling [new]
    on [undefined] raises a [TypeError]. *)
Definition construct (WorkerClass : option WorkerClass)
    (workerConstructorArgs : option (gmap string JsValue)) (heap : nat)
    : Completion Exception WorkerInstance * nat :=
  match WorkerClass with
  | Some c =>
      (Return {| address := heap; classOf := c;
                 constructorArgs := workerConstructorArgs |}, S heap)
  | None => (Throw (TypeError "WorkerClass is not a constructor"), heap)
  end.

(** [load] *)
Definition load (node : Node) (this : t) (pointer : option string)
    (workerConstructorArgs : option (gmap string JsValue)) (heap : nat)
    : Completion Exception WorkerInstance * nat :=
  if falsy pointer
  then (Throw (UndefinedPointerError undefinedPointerMessage), heap)
  else
    let pointer := default EmptyString pointer in
    let filePath := buildPath node pointer in
    if existsSync node filePath then
      construct (requireDefault node filePath) workerConstructorArgs heap
    else if bool_decide (is_Some (bindings this !! pointer)) then
      construct (bindings this !! pointer) workerConstructorArgs heap
    else (Throw (Error (workerNotFoundMessage pointer)), heap).

End DefaultWorkerLoader.

(** ** worker-proxy *)

(** What a caller can observe of the pool at work. *)
Inductive Event :=
| ProxySetup (workerId : Z)
| ProxyLoad (workerId : Z) (pointer : option string)
| ProxyDispose (workerId : Z)
| ReleaseHandlerCalled (id : Z) (data : JsValue)
| ConsoleLog (line : string).

(** The answer of the thread to a handshake request: the completion
    message, the failure message with its data, or no answer at all. *)
Inductive Reply := Complete | Failure (data : JsValue) | Silent.

Module WorkerProxy.

(** A proxy, by the id of its thread and the pointer it has recorded. The
    thread is taken to be running, so that [id] does not change. *)
Record t := mk {
  id : Z;
  _pointer : option string
}.

(** The promise of a handshake settles according to the reply. *)
Definition settle (reply : Reply) : Completion JsValue unit :=
  match reply with
  | Complete => Return ()
  | Failure data => Throw data
  | Silent => Pending
  end.

Definition setup (reply : Reply) (this : t)
    : Completion JsValue unit * t * list Event :=
  (settle reply, this, [ProxySetup (id this)]).

(** [load] records the pointer before it sends the request. *)
Definition load (pointer : option string) (reply : Reply) (this : t)
    : Completion JsValue unit * t * list Event :=
  let this := mk (id this) pointer in
  (settle reply, this, [ProxyLoad (id this) pointer]).

Definition dispose (reply : Reply) (this : t)
    : Completion JsValue unit * t * list Event :=
  (settle reply, this, [ProxyDispose (id this)]).

End WorkerProxy.

(** ** worker-pool *)

Module WorkerPoolOptions.
Record t := mk {
  threadsCount : number.t;
  inviolableThreadsCount : number.t;
  sharedData : JsValue;
  workerLoaderPath : option string
}.
End WorkerPoolOptions.

(** A registered release handler, by what a call of it completes with.
    The handler runs last in [releaseWorker], with the pool already
    updated; what it calls on the pool itself is a call on the pool that
    follows the release. *)
Definition WorkerReleaseHandler : Type :=
  Z → JsValue → Completion JsValue unit.

Module WorkerPool.

Record t := mk {
  workerMaxCount : number.t;
  workerLoaderPath : option string;
  availableWorkers : list WorkerProxy.t;
  activeWorkersByPid : gmap Z WorkerProxy.t;
  sharedData : JsValue;
  workerReleaseHandler : option WorkerReleaseHandler
}.

(** [new WorkerPool()] *)
Definition new : t := mk number.Undefined None [] ∅ VUndefined None.

(** [createWorker]: Node numbers the threads it starts, [nextThreadId]
    is the id the next one gets. *)
Definition createWorker (reply : Reply) (nextThreadId : Z)
    : Completion JsValue WorkerProxy.t * Z * list Event :=
  let proxy := WorkerProxy.mk nextThreadId None in
  let '(settled, proxy, events) := WorkerProxy.setup reply proxy in
  (match settled with
   | Return _ => Return proxy
   | Throw e => Throw e
   | Pending => Pending
   end, nextThreadId + 1, events).

(** The loop of [setup], [n] iterations to go; [replies] gives the answer
    of each thread to its setup request. *)
Fixpoint createWorkers (n : nat) (replies : Z → Reply) (this : t)
    (nextThreadId : Z) : Completion JsValue unit * t * Z * list Event :=
  match n with
  | O => (Return (), this, nextThreadId, [])
  | S n =>
      let '(created, next, events) :=
        createWorker (replies nextThreadId) nextThreadId in
      match created with
      | Return worker =>
          let this :=
            mk (workerMaxCount this) (workerLoaderPath this)
               (availableWorkers this ++ [worker])
               (activeWorkersByPid this) (sharedData this)
               (workerReleaseHandler this) in
          let '(rest, this, next, events') :=
            createWorkers n replies this next in
          (rest, this, next, events ++ events')
      | Throw e => (Throw e, this, next, events)
      | Pending => (Pending, this, next, events)
      end
  end.

(** [setup]; [cpus] is [os.cpus().length]. *)
Definition setup (cpus : Z) (options : WorkerPoolOptions.t)
    (replies : Z → Reply) (this : t) (nextThreadId : Z)
    : Completion JsValue unit * t * Z * list Event :=
  let threadsCount := WorkerPoolOptions.threadsCount options in
  let inviolableThreadsCount :=
    WorkerPoolOptions.inviolableThreadsCount options in
  let this :=
    mk (if number.gt threadsCount inviolableThreadsCount
        then getWorkersCount cpus threadsCount inviolableThreadsCount
        else threadsCount)
       (WorkerPoolOptions.workerLoaderPath options)
       (availableWorkers this) (activeWorkersByPid this)
       (WorkerPoolOptions.sharedData options)
       (workerReleaseHandler this) in
  createWorkers (number.iterations (workerMaxCount this)) replies this
    nextThreadId.

(** [workerCount] *)
Definition workerCount (this : t) : Z :=
  Z.of_nat (length (availableWorkers this))
  + Z.of_nat (size (activeWorkersByPid this)).

(** [getWorker]. The proxy put into the map and the proxy that [load]
    updates are one object, so the map holds the updated proxy. *)
Definition getWorker (pointer : option string) (reply : Reply) (this : t)
    : Completion JsValue (option WorkerProxy.t) * t * list Event :=
  if number.lt (number.Int (Z.of_nat (size (activeWorkersByPid this))))
       (workerMaxCount this)
  then
    match availableWorkers this with
    | worker :: rest =>
        let '(loaded, worker, events) :=
          WorkerProxy.load pointer reply worker in
        let this :=
          mk (workerMaxCount this) (workerLoaderPath this) rest
             (<[WorkerProxy.id worker := worker]> (activeWorkersByPid this))
             (sharedData this) (workerReleaseHandler this) in
        (match loaded with
         | Return _ => Return (Some worker)
         | Throw e => Throw e
         | Pending => Pending
         end, this, events)
    | [] => (Return None, this, [])
    end
  else (Return None, this, []).

(** The line [releaseWorker] logs for an id it does not know. *)
Definition notFoundLine (id : Z) : string :=
  "No worker with the specified ID #" +:+ pretty id +:+ " was found".

(** [releaseWorker] *)
Definition releaseWorker (id : Z) (data : JsValue) (reply : Reply)
    (this : t) : Completion JsValue unit * t * list Event :=
  match activeWorkersByPid this !! id with
  | Some worker =>
      let '(disposed, worker, events) := WorkerProxy.dispose reply worker in
      match disposed with
      | Return _ =>
          let this :=
            mk (workerMaxCount this) (workerLoaderPath this)
               (if number.lt
                     (number.Int (Z.of_nat (length (availableWorkers this))))
                     (workerMaxCount this)
                then availableWorkers this ++ [worker]
                else availableWorkers this)
               (delete id (activeWorkersByPid this))
               (sharedData this) (workerReleaseHandler this) in
          match workerReleaseHandler this with
          | Some handler =>
              (handler id data, this,
               events ++ [ReleaseHandlerCalled id data])
          | None => (Return (), this, events)
          end
      | Throw e => (Throw e, this, events)
      | Pending => (Pending, this, events)
      end
  | None => (Return (), this, [ConsoleLog (notFoundLine id)])
  end.

Definition hasAvailableWorker (this : t) : bool :=
  number.gt
    (number.sub (workerMaxCount this)
       (number.Int (Z.of_nat (size (activeWorkersByPid this)))))
    (number.Int 0).

Definition hasActiveWorkers (this : t) : bool :=
  bool_decide (0 < size (activeWorkersByPid this))%nat.

Definition countAvailableWorkers (this : t) : number.t :=
  number.sub (workerMaxCount this)
    (number.Int (Z.of_nat (size (activeWorkersByPid this)))).

Definition countActiveWorkers (this : t) : Z :=
  Z.of_nat (size (activeWorkersByPid this)).

Definition onWorkerRelease (handler : WorkerReleaseHandler) (this : t) : t :=
  mk (workerMaxCount this) (workerLoaderPath this) (availableWorkers this)
     (activeWorkersByPid this) (sharedData this) (Some handler).

(** A call on the pool, with the reply its handshake (if any) meets. *)
Inductive Op :=
| GetWorker (pointer : option string) (reply : Reply)
| ReleaseWorker (id : Z) (data : JsValue) (reply : Reply)
| OnWorkerRelease (handler : WorkerReleaseHandler).

(** The pool after one call, and after a sequence of calls. *)
Definition step (this : t) (op : Op) : t :=
  match op with
  | GetWorker pointer reply => (getWorker pointer reply this).1.2
  | ReleaseWorker id data reply => (releaseWorker id data reply this).1.2
  | OnWorkerRelease handler => onWorkerRelease handler this
  end.

Definition run (ops : list Op) (this : t) : t := foldl step this ops.

(** The ids of the idle proxies, front first. *)
Definition idleIds (this : t) : list Z :=
  WorkerProxy.id <$> availableWorkers this.

(** What [getWorker] hands out over a sequence of calls whose load
    requests all complete: the ids of the proxies returned, in order. *)
Fixpoint acquired (pointers : list (option string)) (this : t) : list Z :=
  match pointers with
  | [] => []
  | pointer :: pointers =>
      let '(result, this, _) := getWorker pointer Complete this in
      match result with
      | Return (Some worker) =>
          WorkerProxy.id worker :: acquired pointers this
      | _ => acquired pointers this
      end
  end.

(** [n] proxies as [createWorker] makes them, for the threads [first],
    [first + 1], ... *)
Fixpoint created (n : nat) (first : Z) : list WorkerProxy.t :=
  match n with
  | O => []
  | S n => WorkerProxy.mk first None :: created n (first + 1)
  end.

(** The accounting invariant of a pool with ceiling [n]. *)
Record invariant (n : Z) (this : t) : Prop := {
  inv_ceiling : workerMaxCount this = number.Int n;
  inv_count : workerCount this ≤ n;
  inv_nodup : NoDup (idleIds this);
  inv_disjoint :
    ∀ w, w ∈ availableWorkers this →
         activeWorkersByPid this !! WorkerProxy.id w = None;
  inv_keys :
    ∀ k w, activeWorkersByPid this !! k = Some w → WorkerProxy.id w = k
}.

End WorkerPool.

(** ** worker-message: the messages of the handshakes *)

(** The factories of the system messages that carry no error. (The
    failure messages carry a raised [Error] object as their data, a kind
    of value [JsValue] does not have; they are left out.) *)
Module SystemMessage.

(** A pointer as message data: a string, or [undefined]. *)
Definition pointerData (pointer : option string) : JsValue :=
  match pointer with
  | Some s => VString s
  | None => VUndefined
  end.

Definition setup (workerId : Z) : WorkerMessage.t :=
  WorkerMessage.mk workerId WorkerMessageType.System
    WorkerMessageName.Setup VUndefined None.


Definition load (workerId : Z) (pointer : option string) : WorkerMessage.t :=
  WorkerMessage.mk workerId WorkerMessageType.System
    WorkerMessageName.Load (pointerData pointer) None.

Definition loadComplete (workerId : Z) : WorkerMessage.t :=
  WorkerMessage.mk workerId WorkerMessageType.System
    WorkerMessageName.LoadComplete VUndefined None.

Definition dispose (workerId : Z) : WorkerMessage.t :=
  WorkerMessage.mk workerId WorkerMessageType.System
    WorkerMessageName.Dispose VUndefined None.

Definition disposeComplete (workerId : Z) : WorkerMessage.t :=
  WorkerMessage.mk workerId WorkerMessageType.System
    WorkerMessageName.DisposeComplete VUndefined None.

End SystemMessage.

(** ** worker-proxy, with the listeners of its thread *)

(** The proxy seen from inside: the listeners registered on the thread
    object, the promises its handshakes handed out, what it posted to the
    thread, and which handlers of the caller it invoked. Handlers are
    known by a number; what a handler does is its own affair, the proxy
    catches and logs its failure. [remove], which ends the thread, is
    left out. *)
Module ProxyChannel.

Inductive Handshake := SetupHandshake | LoadHandshake | DisposeHandshake.

Definition completeName (h : Handshake) : string :=
  match h with
  | SetupHandshake => WorkerMessageName.SetupComplete
  | LoadHandshake => WorkerMessageName.LoadComplete
  | DisposeHandshake => WorkerMessageName.DisposeComplete
  end.

Definition failureName (h : Handshake) : string :=
  match h with
  | SetupHandshake => WorkerMessageName.SetupFailure
  | LoadHandshake => WorkerMessageName.LoadFailure
  | DisposeHandshake => WorkerMessageName.DisposeFailure
  end.

(** A listener: the one a handshake installs for ['message'], which
    settles the promise of that handshake, or one installed by
    [onMessage], [onError] or [onExit] for the handler given. *)
Inductive Listener :=
| HandshakeListener (h : Handshake) (promise : nat)
| MessageListener (handler : nat)
| ErrorListener (handler : nat)
| ExitListener (handler : nat).

(** The state of a promise. *)
Inductive Settled := Unsettled | Resolved | Rejected (data : JsValue).

Inductive Invocation :=
| MessageHandled (handler : nat) (message : WorkerMessage.t)
| ErrorHandled (handler : nat) (workerId : Z) (error : JsValue)
| ExitHandled (handler : nat) (workerId : Z) (code : Z).

Record t := mk {
  proxy : WorkerProxy.t;
  listeners : list Listener;
  promises : list Settled;
  sent : list WorkerMessageContent.t;
  invoked : list Invocation
}.

(** [new WorkerProxy(...)] for the thread [threadId]. *)
Definition new (threadId : Z) : t :=
  mk (WorkerProxy.mk threadId None) [] [] [] [].

(** [worker.removeAllListeners()]: with no event name, the listeners of
    every event go. *)
Definition removeAllListeners (this : t) : t :=
  mk (proxy this) [] (promises this) (sent this) (invoked this).

(** [worker.on(event, listener)] *)
Definition on (listener : Listener) (this : t) : t :=
  mk (proxy this) (listeners this ++ [listener]) (promises this)
     (sent this) (invoked this).

(** [worker.postMessage(content)] *)
Definition postMessage (content : WorkerMessageContent.t) (this : t) : t :=
  mk (proxy this) (listeners this) (promises this)
     (sent this ++ [content]) (invoked this).

(** Resolving or rejecting a promise: only the first time counts. *)
Definition settle (promise : nat) (outcome : Settled) (this : t) : t :=
  match promises this !! promise with
  | Some Unsettled =>
      mk (proxy this) (listeners this)
         (<[promise := outcome]> (promises this)) (sent this) (invoked this)
  | _ => this
  end.

(** The common shape of [setup], [load] and [dispose]: drop all
    listeners, make the promise, install the listener that settles it,
    post the request. The number of the promise is returned. *)
Definition handshake (h : Handshake) (request : WorkerMessage.t) (this : t)
    : nat * t :=
  let this := removeAllListeners this in
  let promise := length (promises this) in
  let this :=
    mk (proxy this) (listeners this) (promises this ++ [Unsettled])
       (sent this) (invoked this) in
  let this := on (HandshakeListener h promise) this in
  let this := postMessage (WorkerMessage.toJson request) this in
  (promise, this).

Definition setup (this : t) : nat * t :=
  handshake SetupHandshake
    (SystemMessage.setup (WorkerProxy.id (proxy this))) this.

Definition load (pointer : option string) (this : t) : nat * t :=
  let this :=
    mk (WorkerProxy.mk (WorkerProxy.id (proxy this)) pointer)
       (listeners this) (promises this) (sent this) (invoked this) in
  handshake LoadHandshake
    (SystemMessage.load (WorkerProxy.id (proxy this)) pointer) this.

Definition dispose (this : t) : nat * t :=
  handshake DisposeHandshake
    (SystemMessage.dispose (WorkerProxy.id (proxy this))) this.

(** [run] *)
Definition run (data : JsValue) (this : t) : t :=
  postMessage
    (WorkerMessage.toJson
       (WorkerMessage.runTask (WorkerProxy.id (proxy this)) data)) this.

Definition onMessage (handler : nat) (this : t) : t :=
  on (MessageListener handler) this.

Definition onError (handler : nat) (this : t) : t :=
  on (ErrorListener handler) this.

Definition onExit (handler : nat) (this : t) : t :=
  on (ExitListener handler) this.

Definition isSystem (content : WorkerMessageContent.t) : bool :=
  String.eqb (WorkerMessageContent.type content) WorkerMessageType.System.

(** What a handshake makes of a message: its completion resolves, its
    failure rejects with the data of the message, anything else is not
    for it. The worker id of the message is not looked at. *)
Definition verdict (h : Handshake) (content : WorkerMessageContent.t)
    : option Settled :=
  if isSystem content
     && String.eqb (WorkerMessageContent.name content) (completeName h)
  then Some Resolved
  else if isSystem content
          && String.eqb (WorkerMessageContent.name content) (failureName h)
  then Some (Rejected (WorkerMessageContent.data content))
  else None.

(** One listener of ['message'] receiving [content]. *)
Definition receive (content : WorkerMessageContent.t) (this : t)
    (listener : Listener) : t :=
  match listener with
  | HandshakeListener h promise =>
      match verdict h content with
      | Some outcome => settle promise outcome (removeAllListeners this)
      | None => this
      end
  | MessageListener handler =>
      if negb (isSystem content)
      then mk (proxy this) (listeners this) (promises this) (sent this)
             (invoked this
              ++ [MessageHandled handler (WorkerMessage.create content)])
      else this
  | _ => this
  end.

(** The thread object emits ['message']: the listeners registered at that
    moment are called in the order of their registration. *)
Definition emitMessage (content : WorkerMessageContent.t) (this : t) : t :=
  foldl (receive content) this (listeners this).

Definition emitError (error : JsValue) (this : t) : t :=
  foldl
    (λ this listener,
       match listener with
       | ErrorListener handler =>
           mk (proxy this) (listeners this) (promises this) (sent this)
              (invoked this
               ++ [ErrorHandled handler (WorkerProxy.id (proxy this)) error])
       | _ => this
       end) this (listeners this).

Definition emitExit (code : Z) (this : t) : t :=
  foldl
    (λ this listener,
       match listener with
       | ExitListener handler =>
           mk (proxy this) (listeners this) (promises this) (sent this)
              (invoked this
               ++ [ExitHandled handler (WorkerProxy.id (proxy this)) code])
       | _ => this
       end) this (listeners this).

(** What can happen to a proxy: a call of its interface, or an event of
    its thread. *)
Inductive Op :=
| Setup
| Load (pointer : option string)
| Dispose
| Run (data : JsValue)
| OnMessage (handler : nat)
| OnError (handler : nat)
| OnExit (handler : nat)
| Message (content : WorkerMessageContent.t)
| ErrorEvent (error : JsValue)
| ExitEvent (code : Z).

Definition step (this : t) (op : Op) : t :=
  match op with
  | Setup => (setup this).2
  | Load pointer => (load pointer this).2
  | Dispose => (dispose this).2
  | Run data => run data this
  | OnMessage handler => onMessage handler this
  | OnError handler => onError handler this
  | OnExit handler => onExit handler this
  | Message content => emitMessage content this
  | ErrorEvent error => emitError error this
  | ExitEvent code => emitExit code this
  end.

Definition steps (ops : list Op) (this : t) : t := foldl step this ops.

Definition isHandshakeListener (listener : Listener) : bool :=
  match listener with
  | HandshakeListener _ _ => true
  | _ => false
  end.


Definition isHandshake (op : Op) : bool :=
  match op with
  | Setup | Load _ | Dispose => true
  | _ => false
  end.

(** The events of the thread among the operations. *)
Definition isEvent (op : Op) : bool :=
  match op with
  | Message _ | ErrorEvent _ | ExitEvent _ => true
  | _ => false
  end.

(** The first verdict a handshake finds in a sequence of messages. *)
Fixpoint firstVerdict (h : Handshake)
    (contents : list WorkerMessageContent.t) : Settled :=
  match contents with
  | [] => Unsettled
  | content :: contents =>
      match verdict h content with
      | Some outcome => outcome
      | None => firstVerdict h contents
      end
  end.


(** How an [await] on a promise ends. *)
Definition awaited (state : Settled) : Completion JsValue unit :=
  match state with
  | Unsettled => Pending
  | Resolved => Return ()
  | Rejected data => Throw data
  end.

(** The message with which a thread gives [reply] to a handshake, if it
    gives one; [error] is what a failure message has in its error field. *)
Definition replyMessage (h : Handshake) (workerId : Z)
    (error : option ErrorJson) (reply : Reply)
    : list WorkerMessageContent.t :=
  match reply with
  | Complete =>
      [WorkerMessageContent.mk workerId WorkerMessageType.System
         (completeName h) VUndefined None]
  | Failure data =>
      [WorkerMessageContent.mk workerId WorkerMessageType.System
         (failureName h) data error]
  | Silent => []
  end.

End ProxyChannel.

(** ** worker-container *)

Module WorkerContainer.

Record t := mk {
  bindings : gmap string WorkerClass
}.

(** [new WorkerContainer()] *)
Definition new : t := mk ∅.

Definition bind (label : string) (workerClass : WorkerClass) (this : t) : t :=
  mk (<[label := workerClass]> (bindings this)).

(** [get]: [undefined], here [None], for a label that was not bound. *)
Definition get (label : string) (this : t) : option WorkerClass :=
  bindings this !! label.

(** A sequence of [bind] calls. *)
Definition binds (bs : list (string * WorkerClass)) (this : t) : t :=
  foldl (λ container b, bind b.1 b.2 container) this bs.

End WorkerContainer.

(** ** worker-loader.utils *)

Module LoaderUtils.

(** What a property of a module object holds: a class, some other truthy
    value, or a falsy one. *)
Inductive Export := Falsy | Constructor (c : WorkerClass) | NotConstructor.

(** The truthy value that [require] gave, as the utilities look at it:
    its own enumerable properties in the order of [Object.keys], and what
    a read of any other key gives, that is a property which is inherited
    or not enumerable ([constructor], [toString], [__esModule]), [Falsy]
    where there is none. Reading a property does not throw. *)
Record Required := {
  exported : list (string * Export);
  inherited : string → Export
}.

(** What the utilities throw or let through: their two errors, the
    [TypeError] of [new] on something that is not a constructor, and
    whatever a module or a constructor throws of its own. *)
Inductive Exception :=
| InvalidPathError (message : string)
| MissingClassError (message : string)
| NotAConstructor
| Thrown (e : JsValue).

(** The file system, the module loader and the classes of the modules:
    [requireModule path] is how [require(path)] ends, with [None] for a
    falsy value; [construct c argument] is how [new c(argument)] ends,
    and what it logs. *)
Record Disk := {
  node : Node;
  requireModule : string → Completion Exception (option Required);
  construct :
    WorkerClass → option string → Completion Exception unit * list string
}.

(** The message of [new InvalidPathError(path)]: the second argument is
    never given, and is printed as it is. *)
Definition invalidPathMessage (path : string) : string :=
  "The given undefined path is invalid: " +:+ path.

Definition missingClassMessage (path : string) : string :=
  "Class not found in the specified file " +:+ dquote +:+ path +:+ dquote.

Definition manyExportsWarning (path first : string) : string :=
  "The file " +:+ dquote +:+ path +:+ dquote
  +:+ " contains many exported resources. No class name is given and the expected class is not "
  +:+ dquote +:+ "default" +:+ dquote
  +:+ " so the first export in the list " +:+ first +:+ " will be used.".

(** A string used as a condition. *)
Definition truthy (value : option string) : bool :=
  match value with
  | Some s => negb (String.eqb s EmptyString)
  | None => false
  end.

(** The own enumerable property [key], if there is one. *)
Fixpoint own (key : string) (entries : list (string * Export))
    : option Export :=
  match entries with
  | [] => None
  | (k, e) :: entries => if String.eqb k key then Some e else own key entries
  end.

(** [required[key]]: the own property, or else what the object inherits
    or hides under that key. *)
Definition read (key : string) (required : Required) : Export :=
  default (inherited required key) (own key (exported required)).

Definition isTruthy (e : Export) : bool :=
  match e with
  | Falsy => false
  | _ => true
  end.

(** The value both [getWorkerLoader] and [getWorkerLoaderDependencies]
    pick from a module with at least one key, and the warnings logged. *)
Definition selectClass (loaderPath : string) (required : Required)
    (className : option string) : Export * list string :=
  let keys := (exported required).*1 in
  if isTruthy (read "default" required)
  then (read "default" required, [])
  else
    if bool_decide (1 < length keys)%nat && negb (truthy className)
    then (read (default EmptyString (head keys)) required,
          [manyExportsWarning loaderPath (default EmptyString (head keys))])
    else if truthy className
    then (read (default EmptyString className) required, [])
    else (read (default EmptyString (head keys)) required, []).

(** The part the two functions share, from the built path to the value
    that [new] is applied to. *)
Definition requireClass (disk : Disk) (loaderPath : string)
    (className : option string)
    : Completion Exception Export * list string :=
  if bool_decide (existsSync (node disk) loaderPath = false)
  then (Throw (InvalidPathError (invalidPathMessage loaderPath)), [])
  else
    match requireModule disk loaderPath with
    | Return None =>
        (Throw (MissingClassError (missingClassMessage loaderPath)), [])
    | Return (Some required) =>
        match exported required with
        | [] =>
            (Throw (MissingClassError (missingClassMessage loaderPath)), [])
        | _ :: _ =>
            let '(selected, warnings) :=
              selectClass loaderPath required className in
            (Return selected, warnings)
        end
    | Throw e => (Throw e, [])
    | Pending => (Pending, [])
    end.

(** [new selected(argument)]: the class instantiated, and what its
    constructor logged. *)
Definition new (disk : Disk) (selected : Export) (argument : option string)
    : Completion Exception WorkerClass * list string :=
  match selected with
  | Constructor c =>
      let '(done, logged) := construct disk c argument in
      (match done with
       | Return _ => Return c
       | Throw e => Throw e
       | Pending => Pending
       end, logged)
  | _ => (Throw NotAConstructor, [])
  end.

(** An instance of a dependencies class. *)
Inductive Dependencies := DependenciesOf (c : WorkerClass).

(** A loader: an instance of a class found in a file, made with the
    dependencies path as its argument, or the default loader. *)
Inductive Loader :=
| CustomLoader (c : WorkerClass) (dependenciesPath : option string)
| DefaultLoader (dependenciesPointer : option string)
    (dependencies : option Dependencies).

(** The class is instantiated without argument. *)
Definition getWorkerLoaderDependencies (disk : Disk) (path : string)
    (className : option string)
    : Completion Exception Dependencies * list string :=
  let loaderPath := buildPath (node disk) path in
  let '(found, warnings) := requireClass disk loaderPath className in
  match found with
  | Return selected =>
      let '(made, logged) := new disk selected None in
      (match made with
       | Return c => Return (DependenciesOf c)
       | Throw e => Throw e
       | Pending => Pending
       end, warnings ++ logged)
  | Throw e => (Throw e, warnings)
  | Pending => (Pending, warnings)
  end.

(** [new DefaultWorkerLoader(dependenciesPointer)] *)
Definition newDefaultWorkerLoader (disk : Disk)
    (dependenciesPointer : option string)
    : Completion Exception Loader * list string :=
  if truthy dependenciesPointer then
    let '(found, logged) :=
      getWorkerLoaderDependencies disk
        (default EmptyString dependenciesPointer) None in
    (match found with
     | Return d => Return (DefaultLoader dependenciesPointer (Some d))
     | Throw e => Throw e
     | Pending => Pending
     end, logged)
  else (Return (DefaultLoader dependenciesPointer None), []).

(** How the constructor of [DefaultWorkerLoader] ends, and what it logs.
    A class that extends [DefaultWorkerLoader] and passes its argument on
    to [super] runs it on that argument. *)
Definition defaultConstructor (disk : Disk)
    (dependenciesPointer : option string)
    : Completion Exception unit * list string :=
  let '(made, logged) := newDefaultWorkerLoader disk dependenciesPointer in
  (match made with
   | Return _ => Return ()
   | Throw e => Throw e
   | Pending => Pending
   end, logged).

(** [new selected(dependenciesPath)] as a loader. *)
Definition newLoader (disk : Disk) (selected : Export)
    (dependenciesPath : option string)
    : Completion Exception Loader * list string :=
  let '(made, logged) := new disk selected dependenciesPath in
  (match made with
   | Return c => Return (CustomLoader c dependenciesPath)
   | Throw e => Throw e
   | Pending => Pending
   end, logged).

Definition getWorkerLoader (disk : Disk) (path : option string)
    (dependenciesPath className : option string)
    : Completion Exception Loader * list string :=
  if truthy path then
    let loaderPath := buildPath (node disk) (default EmptyString path) in
    let '(found, warnings) := requireClass disk loaderPath className in
    match found with
    | Return selected =>
        let '(made, logged) := newLoader disk selected dependenciesPath in
        (made, warnings ++ logged)
    | Throw e => (Throw e, warnings)
    | Pending => (Pending, warnings)
    end
  else newDefaultWorkerLoader disk dependenciesPath.

Definition testPath (disk : Disk) (value : option string) : bool :=
  if truthy value
  then existsSync (node disk)
         (buildPath (node disk) (default EmptyString value))
  else false.

End LoaderUtils.

(** ** worker-loader-script: the code that runs in the thread *)

Module LoaderScript.

(** A value used as a condition. *)
Definition truthy (value : JsValue) : bool :=
  match value with
  | VUndefined | VNull => false
  | VBool b => b
  | VNumber z => negb (z =? 0)
  | VString s => negb (String.eqb s EmptyString)
  | VObject _ => true
  end.

(** A worker loader as the script uses it: its [setup] and its [load];
    [load] is given the value the script passes as pointer, which is
    typed as a string but can be any value, and the number of objects
    allocated so far, and returns the new number. *)
Record WorkerLoader := {
  setupOf : JsValue → Completion Exception unit;
  loadOf : JsValue → nat → Completion Exception WorkerInstance * nat
}.

(** The default loader seen through that interface, without
    dependencies. Given a truthy value that is not a string, its [load]
    gets as far as [buildPath], where the call of [endsWith] on that
    value raises a [TypeError]. *)
Definition defaultLoader (node : Node) (this : DefaultWorkerLoader.t)
    : WorkerLoader :=
  {| setupOf := λ _, Return ();
     loadOf := λ pointer heap,
       match pointer with
       | VString s => DefaultWorkerLoader.load node this (Some s) None heap
       | _ =>
           if truthy pointer
           then (Throw (TypeError "filePath.endsWith is not a function"),
                 heap)
           else DefaultWorkerLoader.load node this None None heap
       end |}.

Record Options := {
  workerLoaderPath : option string;
  workerLoaderDependenciesPath : option string
}.

(** [workerData] *)
Record WorkerData := {
  pointer : option string;
  sharedData : JsValue;
  options : option Options
}.

(** What is thrown in the script: an error of the loader, an error of
    [getWorkerLoader], an error of [run] of the worker, or the
    [TypeError] of calling a method on a loader or worker that is not
    there. *)
Inductive Raised :=
| FromLoader (e : Exception)
| FromUtils (e : LoaderUtils.Exception)
| FromWorker (e : Exception)
| NoLoader
| NoWorker.

(** The messages the script posts, by the factory that made them and its
    arguments. *)
Inductive Posted :=
| SetupComplete (workerId : Z)
| SetupFailure (workerId : Z) (error : Raised)
| LoadComplete (workerId : Z)
| LoadFailure (workerId : Z) (error : Raised)
| DisposeComplete (workerId : Z)
| DisposeFailure (workerId : Z) (error : Raised).

(** What the script is given: its [workerData], [getWorkerLoader] with
    the loader it finds for a path and a dependencies path, and how the
    call of [run] on a loaded worker ends for a task: it returns, throws,
    or never returns. The script does not await what [run] returns. *)
Record Environment := {
  workerData : WorkerData;
  getWorkerLoader :
    option string → option string
    → Completion LoaderUtils.Exception WorkerLoader;
  runOf : WorkerInstance → JsValue → Completion Exception unit
}.

(** The two variables of the module, the objects allocated in the
    thread, what was posted to the parent, and the tasks handed to
    [run] of a worker. *)
Record t := mk {
  worker : option WorkerInstance;
  workerLoader : option WorkerLoader;
  heap : nat;
  posted : list Posted;
  ran : list (WorkerInstance * JsValue)
}.

Definition initial : t := mk None None 0 [] [].

(** [data || pointer]: the data of the message when it is truthy,
    whatever its type, and else the pointer of [workerData]. *)
Definition orPointer (data : JsValue) (pointer : option string) : JsValue :=
  if truthy data then data else SystemMessage.pointerData pointer.

(** [setupWorkerLoader]: the loader is stored before its [setup] runs. *)
Definition setupWorkerLoader (env : Environment)
    (path dependenciesPath : option string) (sharedData : JsValue)
    (this : t) : Completion Raised unit * t :=
  match getWorkerLoader env path dependenciesPath with
  | Return loader =>
      let this :=
        mk (worker this) (Some loader) (heap this) (posted this)
           (ran this) in
      (match setupOf loader sharedData with
       | Return _ => Return ()
       | Throw e => Throw (FromLoader e)
       | Pending => Pending
       end, this)
  | Throw e => (Throw (FromUtils e), this)
  | Pending => (Pending, this)
  end.

(** [loadWorker]: the worker is stored only when [load] has returned. *)
Definition loadWorker (message : WorkerMessageContent.t)
    (pointer : option string) (this : t) : Completion Raised unit * t :=
  let data := WorkerMessageContent.data message in
  match workerLoader this with
  | Some loader =>
      let '(loaded, heap) :=
        loadOf loader (orPointer data pointer) (heap this) in
      match loaded with
      | Return instance =>
          (Return (),
           mk (Some instance) (workerLoader this) heap (posted this)
              (ran this))
      | Throw e =>
          (Throw (FromLoader e),
           mk (worker this) (workerLoader this) heap (posted this)
              (ran this))
      | Pending =>
          (Pending,
           mk (worker this) (workerLoader this) heap (posted this)
              (ran this))
      end
  | None => (Throw NoLoader, this)
  end.

Definition clearWorker (this : t) : t :=
  mk None (workerLoader this) (heap this) (posted this) (ran this).

Definition getWorker (this : t) : option WorkerInstance := worker this.

Definition post (message : Posted) (this : t) : t :=
  mk (worker this) (workerLoader this) (heap this)
     (posted this ++ [message]) (ran this).

(** [messageHandler] *)
Definition messageHandler (env : Environment)
    (message : WorkerMessageContent.t) (this : t)
    : Completion Raised unit * t :=
  let workerId := WorkerMessageContent.workerId message in
  let name := WorkerMessageContent.name message in
  let workerLoaderPath :=
    if options (workerData env) is Some o then workerLoaderPath o else None in
  let workerLoaderDependenciesPath :=
    if options (workerData env) is Some o
    then workerLoaderDependenciesPath o else None in
  if String.eqb name WorkerMessageName.Setup then
    let '(done, this) :=
      setupWorkerLoader env workerLoaderPath workerLoaderDependenciesPath
        (sharedData (workerData env)) this in
    match done with
    | Return _ => (Return (), post (SetupComplete workerId) this)
    | Throw error => (Return (), post (SetupFailure workerId error) this)
    | Pending => (Pending, this)
    end
  else if String.eqb name WorkerMessageName.Load then
    let '(done, this) := loadWorker message (pointer (workerData env)) this in
    match done with
    | Return _ => (Return (), post (LoadComplete workerId) this)
    | Throw error => (Return (), post (LoadFailure workerId error) this)
    | Pending => (Pending, this)
    end
  else if String.eqb name WorkerMessageName.Dispose then
    (Return (), post (DisposeComplete workerId) (clearWorker this))
  else if String.eqb name WorkerMessageName.RunTask then
    match getWorker this with
    | Some instance =>
        (match runOf env instance (WorkerMessageContent.data message) with
         | Return _ => Return ()
         | Throw e => Throw (FromWorker e)
         | Pending => Pending
         end,
         mk (worker this) (workerLoader this) (heap this) (posted this)
            (ran this ++ [(instance, WorkerMessageContent.data message)]))
    | None => (Throw NoWorker, this)
    end
  else (Return (), this).

(** The queue: the messages are handled one at a time, in the order of
    their arrival. A handler that throws does not stop the queue; one
    that never returns keeps the messages behind it waiting for ever. *)
Fixpoint handleAll (env : Environment)
    (messages : list WorkerMessageContent.t) (this : t) : t :=
  match messages with
  | [] => this
  | message :: messages =>
      let '(done, this) := messageHandler env message this in
      match done with
      | Pending => this
      | _ => handleAll env messages this
      end
  end.

(** The worker id of a posted message, and whether it answers the
    request named [name]. *)
Definition postedId (message : Posted) : Z :=
  match message with
  | SetupComplete i | SetupFailure i _ | LoadComplete i | LoadFailure i _
  | DisposeComplete i | DisposeFailure i _ => i
  end.

Definition answers (name : string) (message : Posted) : bool :=
  match message with
  | SetupComplete _ | SetupFailure _ _ =>
      String.eqb name WorkerMessageName.Setup
  | LoadComplete _ | LoadFailure _ _ =>
      String.eqb name WorkerMessageName.Load
  | DisposeComplete _ | DisposeFailure _ _ =>
      String.eqb name WorkerMessageName.Dispose
  end.

(** The requests of the handshakes among the messages. *)
Definition isRequest (message : WorkerMessageContent.t) : bool :=
  String.eqb (WorkerMessageContent.name message) WorkerMessageName.Setup
  || String.eqb (WorkerMessageContent.name message) WorkerMessageName.Load
  || String.eqb (WorkerMessageContent.name message)
       WorkerMessageName.Dispose.

(** A loader that hangs neither in [setup] nor in [load]. *)
Definition settles (loader : WorkerLoader) : Prop :=
  (∀ sharedData, setupOf loader sharedData ≠ Pending)
  ∧ (∀ pointer heap, (loadOf loader pointer heap).1 ≠ Pending).

(** An environment in which nothing hangs. *)
Definition responsive (env : Environment) : Prop :=
  (∀ path dependenciesPath,
     getWorkerLoader env path dependenciesPath ≠ Pending)
  ∧ (∀ path dependenciesPath loader,
       getWorkerLoader env path dependenciesPath = Return loader →
       settles loader)
  ∧ (∀ instance data, runOf env instance data ≠ Pending).

End LoaderScript.

(** ** Views of the pool used to state its properties *)

(** The ids of all proxies the pool holds, idle or busy. *)
Definition poolIds (this : WorkerPool.t) : gset Z :=
  list_to_set (WorkerPool.idleIds this)
  ∪ dom (WorkerPool.activeWorkersByPid this).

(** The calls of [getWorker] among the calls on a pool. *)
Definition isGetWorker (op : WorkerPool.Op) : bool :=
  match op with
  | WorkerPool.GetWorker _ _ => true
  | _ => false
  end.

(** The calls of [progress] among the calls on a worker. *)
Definition isProgress (c : Worker.Call) : bool :=
  match c with
  | Worker.Progress _ => true
  | _ => false
  end.

(** The setup requests sent for the threads [first], [first + 1], ... *)
Definition setupRequests (n : nat) (first : Z) : list Event :=
  (λ w, ProxySetup (WorkerProxy.id w)) <$> WorkerPool.created n first.

(** * Properties *)

(** ** The unit tests of the repository, replayed *)

Example getWorkersCount_zero :
  getWorkersCount 4 (number.Int 0) (number.Int 1) = number.Int 3.
Proof. reflexivity. Qed.

Example getWorkersCount_positive :
  getWorkersCount 4 (number.Int 2) (number.Int 1) = number.Int 2.
Proof. reflexivity. Qed.

Example getWorkersCount_NaN :
  getWorkersCount 4 number.NaN (number.Int 1) = number.Int 3.
Proof. reflexivity. Qed.

Example toJson_runTask :
  WorkerMessage.toJson (WorkerMessage.runTask 1 (VString "Task data"))
  = WorkerMessageContent.mk 1 "info" "run_task" (VString "Task data")
      (Some WorkerMessage.emptyObject).
Proof. reflexivity. Qed.

Example toJson_taskRejected :
  WorkerMessageContent.error
    (WorkerMessage.toJson
       (WorkerMessage.taskRejected 1 (Some (newError "Some error" "at run"))))
  = Some {| enumerable :=
              <["name" := VString "Error"]>
                (<["stack" := VString "at run"]>
                   {[ "message" := VString "Some error" ]});
            hidden := ∅ |}.
Proof. reflexivity. Qed.

Example progress_progress_resolve :
  Worker.parentPort
    (Worker.calls
       [Worker.Progress (VNumber 1); Worker.Progress (VNumber 2);
        Worker.Resolve (VString "done")] (Worker.new 1 []))
  = [WorkerMessageContent.mk 1 "info" "task_progress" (VNumber 1)
       (Some WorkerMessage.emptyObject);
     WorkerMessageContent.mk 1 "info" "task_progress" (VNumber 2)
       (Some WorkerMessage.emptyObject);
     WorkerMessageContent.mk 1 "info" "task_resolved" (VString "done")
       (Some WorkerMessage.emptyObject)].
Proof. reflexivity. Qed.

Example buildPath_extensions :
  let node :=
    {| cwd := "/app"; resolve := String.concat "/";
       existsSync := λ _, false; requireDefault := λ _, None |} in
  (buildPath node "worker", buildPath node "worker.js",
   buildPath node "worker.ts")
  = ("/app/build/worker.js", "/app/build/worker.js", "/app/src/worker.ts").
Proof. reflexivity. Qed.

(** A pool of two: two acquires succeed, a third gives null, and after
    the first proxy is released a fourth acquire hands its id out again. *)
Example acquire_twice_release_acquire :
  let options :=
    WorkerPoolOptions.mk (number.Int 2) (number.Int 1) VUndefined None in
  let p0 :=
    (WorkerPool.setup 4 options (λ _, Complete) WorkerPool.new 1).1.1.2 in
  let g1 := WorkerPool.getWorker (Some "a") Complete p0 in
  let g2 := WorkerPool.getWorker (Some "b") Complete g1.1.2 in
  let g3 := WorkerPool.getWorker (Some "c") Complete g2.1.2 in
  let r := WorkerPool.releaseWorker 1 VNull Complete g3.1.2 in
  let g4 := WorkerPool.getWorker (Some "d") Complete r.1.2 in
  g1.1.1 = Return (Some (WorkerProxy.mk 1 (Some "a")))
  ∧ g2.1.1 = Return (Some (WorkerProxy.mk 2 (Some "b")))
  ∧ g3 = (Return None, g2.1.2, [])
  ∧ r.2 = [ProxyDispose 1]
  ∧ g4.1.1 = Return (Some (WorkerProxy.mk 1 (Some "d"))).
Proof. repeat split; reflexivity. Qed.

(** ** The ceiling computed by [setup] *)

Section Ceiling.

Import WorkerPool.

Lemma createWorkers_frame n replies this next :
  let p := (createWorkers n replies this next).1.1.2 in
  workerMaxCount p = workerMaxCount this
  ∧ activeWorkersByPid p = activeWorkersByPid this
  ∧ workerReleaseHandler p = workerReleaseHandler this.
Proof.
  revert this next. induction n as [|n IH]; intros this next; simpl; [done|].
  destruct (replies next); simpl; try done.
  match goal with
  | |- context [createWorkers n replies ?q ?k] =>
      specialize (IH q k);
      destruct (createWorkers n replies q k) as [[[r q'] k'] ev]
  end.
  simpl in *. done.
Qed.

Lemma setup_workerMaxCount cpus options replies this next :
  let threadsCount := WorkerPoolOptions.threadsCount options in
  let inviolableThreadsCount :=
    WorkerPoolOptions.inviolableThreadsCount options in
  workerMaxCount (setup cpus options replies this next).1.1.2
  = if number.gt threadsCount inviolableThreadsCount
    then getWorkersCount cpus threadsCount inviolableThreadsCount
    else threadsCount.
Proof.
  simpl. unfold setup.
  match goal with
  | |- context [createWorkers ?n replies ?q next] =>
      destruct (createWorkers_frame n replies q next) as [-> _]
  end.
  done.
Qed.

(** A positive [threadsCount] is the ceiling, whatever the reservation. *)
Lemma setup_ceiling_positive cpus options replies this next n :
  WorkerPoolOptions.threadsCount options = number.Int n →
  0 < n →
  workerMaxCount (setup cpus options replies this next).1.1.2
  = number.Int n.
Proof.
  intros Hn Hpos. rewrite setup_workerMaxCount, Hn.
  destruct (number.gt _ _); [|done].
  unfold getWorkersCount. destruct n; try lia; done.
Qed.

(** With [threadsCount] zero and no negative reservation the guard of
    [setup] fails and the ceiling is zero: the hardware is not asked. *)
Lemma setup_ceiling_zero cpus options replies this next :
  WorkerPoolOptions.threadsCount options = number.Int 0 →
  number.lt (WorkerPoolOptions.inviolableThreadsCount options)
    (number.Int 0) = false →
  workerMaxCount (setup cpus options replies this next).1.1.2
  = number.Int 0.
Proof.
  intros H0 Hres. rewrite setup_workerMaxCount, H0.
  destruct (WorkerPoolOptions.inviolableThreadsCount options) as [| |r];
    simpl in *; try done.
  rewrite Hres. done.
Qed.

(** When [threadsCount] is [NaN] or [undefined] the guard fails as well
    and the ceiling is [threadsCount] itself. *)
Lemma setup_ceiling_not_a_number cpus options replies this next :
  number.isNaN (WorkerPoolOptions.threadsCount options) = true →
  workerMaxCount (setup cpus options replies this next).1.1.2
  = WorkerPoolOptions.threadsCount options.
Proof.
  intros Hnan. rewrite setup_workerMaxCount.
  destruct (WorkerPoolOptions.threadsCount options); done.
Qed.

End Ceiling.

(** C1 (fails on the code): with [threadsCount = 0],
    [inviolableThreadsCount = 1] and four CPUs, [setup] leaves the ceiling
    at 0 and creates no proxy; the claim asks for 4 - 1 = 3, which is what
    [getWorkersCount] alone computes. With [threadsCount] left out the
    ceiling stays [undefined]. *)
Theorem setup_ceiling_zero_threads :
  let zero :=
    WorkerPoolOptions.mk (number.Int 0) (number.Int 1) VUndefined None in
  let absent :=
    WorkerPoolOptions.mk number.Undefined (number.Int 1) VUndefined None in
  let pool options :=
    (WorkerPool.setup 4 options (λ _, Complete) WorkerPool.new 1).1.1.2 in
  WorkerPool.workerMaxCount (pool zero) = number.Int 0
  ∧ WorkerPool.availableWorkers (pool zero) = []
  ∧ getWorkersCount 4 (number.Int 0) (number.Int 1) = number.Int 3
  ∧ WorkerPool.workerMaxCount (pool zero)
    ≠ number.sub (number.Int 4) (number.Int 1)
  ∧ WorkerPool.workerMaxCount (pool absent) = number.Undefined
  ∧ WorkerPool.availableWorkers (pool absent) = [].
Proof. repeat split; done. Qed.

(** ** Pool accounting *)

Section Accounting.

Import WorkerPool.

Lemma created_length n first : length (created n first) = n.
Proof. revert first. induction n; intros; simpl; auto. Qed.

Lemma created_ids n first k :
  k ∈ WorkerProxy.id <$> created n first → first ≤ k < first + Z.of_nat n.
Proof.
  revert first. induction n as [|n IH]; intros first; simpl.
  - intros H. inversion H.
  - rewrite elem_of_cons. intros [->|H]; [lia|].
    apply IH in H. lia.
Qed.

Lemma created_NoDup n first : NoDup (WorkerProxy.id <$> created n first).
Proof.
  revert first. induction n as [|n IH]; intros first; simpl.
  - constructor.
  - apply NoDup_cons. split; [|apply IH].
    intros H. apply created_ids in H. lia.
Qed.

(** When the loop of [setup] runs to its end, the proxies it made are
    queued behind the idle ones, in the order of their creation. *)
Lemma createWorkers_Return n replies this next p next' events :
  createWorkers n replies this next = (Return (), p, next', events) →
  availableWorkers p = availableWorkers this ++ created n next
  ∧ next' = next + Z.of_nat n.
Proof.
  revert this next p next' events.
  induction n as [|n IH]; intros this next p next' events; simpl.
  - intros [= <- <- _]. rewrite app_nil_r. split; [done|lia].
  - destruct (replies next); simpl; try done.
    match goal with
    | |- context [createWorkers n replies ?q ?k] =>
        specialize (IH q k);
        destruct (createWorkers n replies q k) as [[[r q'] k'] ev] eqn:E
    end.
    intros [= -> -> -> _].
    destruct (IH _ _ _ eq_refl) as [-> ->]. simpl.
    rewrite <- app_assoc. split; [done|lia].
Qed.

(** The pool that a completed [setup] of a new pool leaves. *)
Lemma setup_Return cpus options replies next p next' events :
  setup cpus options replies new next = (Return (), p, next', events) →
  availableWorkers p
  = created (number.iterations (workerMaxCount p)) next
  ∧ activeWorkersByPid p = ∅.
Proof.
  intros H.
  pose proof (setup_workerMaxCount cpus options replies new next) as Hmax.
  simpl in Hmax. rewrite H in Hmax. simpl in Hmax.
  unfold setup in H.
  match type of H with
  | createWorkers ?n replies ?q next = _ =>
      pose proof (createWorkers_frame n replies q next) as (_ & Hact & _);
      rewrite H in Hact;
      apply createWorkers_Return in H as [Hav _]
  end.
  simpl in *. rewrite Hmax. split; done.
Qed.

Lemma setup_invariant cpus options replies next p next' events :
  setup cpus options replies new next = (Return (), p, next', events) →
  workerMaxCount p = number.Int (Z.of_nat (length (availableWorkers p))) →
  invariant (Z.of_nat (length (availableWorkers p))) p.
Proof.
  intros H Hmax. apply setup_Return in H as [Hav Hact].
  split.
  - done.
  - unfold workerCount. rewrite Hact, map_size_empty. lia.
  - unfold idleIds. rewrite Hav. apply created_NoDup.
  - intros w _. rewrite Hact. apply lookup_empty.
  - intros k w. rewrite Hact, lookup_empty. done.
Qed.

Lemma getWorker_invariant n pointer reply this :
  invariant n this → invariant n (getWorker pointer reply this).1.2.
Proof.
  intros [Hmax Hcount Hnodup Hdisj Hkeys]. unfold getWorker.
  destruct (number.lt _ _); [|by split].
  destruct (availableWorkers this) as [|worker rest] eqn:Hav; simpl;
    [split; try done; by rewrite Hav|].
  unfold idleIds, workerCount in *. rewrite Hav in *. simpl in *.
  apply NoDup_cons in Hnodup as [Hfresh Hnodup].
  assert (Hnone : activeWorkersByPid this !! WorkerProxy.id worker = None)
    by (apply Hdisj; left).
  split; unfold workerCount, idleIds; simpl.
  - done.
  - rewrite map_size_insert_None by done. lia.
  - done.
  - intros w Hw. rewrite lookup_insert_ne; [apply Hdisj; by right|].
    intros Heq. apply Hfresh. rewrite Heq. by apply list_elem_of_fmap_2.
  - intros k w. rewrite lookup_insert_Some. intros [[<- <-]|[_ Hk]]; eauto.
Qed.

Lemma releaseWorker_invariant n id data reply this :
  invariant n this → invariant n (releaseWorker id data reply this).1.2.
Proof.
  intros [Hmax Hcount Hnodup Hdisj Hkeys]. unfold releaseWorker.
  destruct (activeWorkersByPid this !! id) as [worker|] eqn:Hid; [|by split].
  assert (Hwid : WorkerProxy.id worker = id) by eauto.
  assert (Hnotin : id ∉ idleIds this).
  { intros Hin. apply list_elem_of_fmap in Hin as (w & -> & Hw).
    apply Hdisj in Hw. congruence. }
  destruct reply; simpl; [|by split|by split].
  assert (Hinv : invariant n
    (mk (workerMaxCount this) (workerLoaderPath this)
       (if number.lt (number.Int (Z.of_nat (length (availableWorkers this))))
             (workerMaxCount this)
        then availableWorkers this ++ [worker]
        else availableWorkers this)
       (delete id (activeWorkersByPid this))
       (sharedData this) (workerReleaseHandler this))).
  { assert (Hsize : size (activeWorkersByPid this)
                    = S (size (delete id (activeWorkersByPid this)))).
    { rewrite <- (insert_id _ _ _ Hid) at 1. rewrite <- insert_delete_eq.
      apply map_size_insert_None, lookup_delete_eq. }
    assert (Hkeys' : ∀ k w,
      delete id (activeWorkersByPid this) !! k = Some w →
      WorkerProxy.id w = k).
    { intros k w. rewrite lookup_delete_Some. intros [_ Hk]. eauto. }
    assert (Hdisj' : ∀ w, w ∈ availableWorkers this →
      delete id (activeWorkersByPid this) !! WorkerProxy.id w = None).
    { intros w Hw. rewrite lookup_delete_ne; [by apply Hdisj|].
      intros Heq. apply Hnotin. rewrite Heq. by apply list_elem_of_fmap_2. }
    unfold workerCount, idleIds in *.
    destruct (number.lt _ _);
      split; unfold workerCount, idleIds; simpl; try done; try lia.
    - rewrite length_app. simpl. lia.
    - rewrite fmap_app. apply NoDup_app. split; [done|]. split.
      + simpl. intros x Hx. rewrite list_elem_of_singleton, Hwid.
        intros ->. done.
      + simpl. apply NoDup_singleton.
    - intros w Hw. apply elem_of_app in Hw as [Hw|Hw]; [by apply Hdisj'|].
      apply list_elem_of_singleton in Hw as ->.
      rewrite Hwid. apply lookup_delete_eq. }
  by destruct (workerReleaseHandler this).
Qed.

Lemma step_invariant n this op :
  invariant n this → invariant n (step this op).
Proof.
  intros Hinv. destruct op; simpl.
  - by apply getWorker_invariant.
  - by apply releaseWorker_invariant.
  - by destruct Hinv.
Qed.

Lemma run_invariant n ops this :
  invariant n this → invariant n (run ops this).
Proof.
  revert this. induction ops as [|op ops IH]; intros this Hinv; simpl.
  - done.
  - apply IH. by apply step_invariant.
Qed.

End Accounting.

(** C2: from the pool a completed [setup] leaves, with its
    [workerMaxCount] proxies idle and none busy, every sequence of calls
    keeps the number of idle plus busy proxies within [workerMaxCount],
    and no proxy id is at once in the idle list and in the busy map
    (neither as a key nor as the id of a stored proxy). *)
Theorem pool_accounting_invariant
    cpus options replies next p0 next' events ops :
  WorkerPool.setup cpus options replies WorkerPool.new next
  = (Return (), p0, next', events) →
  WorkerPool.workerMaxCount p0
  = number.Int (Z.of_nat (length (WorkerPool.availableWorkers p0))) →
  let p := WorkerPool.run ops p0 in
  WorkerPool.activeWorkersByPid p0 = ∅
  ∧ (∃ n, WorkerPool.workerMaxCount p = number.Int n
          ∧ Z.of_nat (length (WorkerPool.availableWorkers p))
            + Z.of_nat (size (WorkerPool.activeWorkersByPid p)) ≤ n)
  ∧ (∀ w, w ∈ WorkerPool.availableWorkers p →
          WorkerPool.activeWorkersByPid p !! WorkerProxy.id w = None
          ∧ ∀ k w', WorkerPool.activeWorkersByPid p !! k = Some w' →
                    WorkerProxy.id w' ≠ WorkerProxy.id w).
Proof.
  intros Hsetup Hmax p.
  pose proof (setup_Return _ _ _ _ _ _ _ Hsetup) as [_ Hact].
  pose proof (setup_invariant _ _ _ _ _ _ _ Hsetup Hmax) as Hinv.
  apply (run_invariant _ ops) in Hinv. fold p in Hinv.
  destruct Hinv as [Hceil Hcount Hnodup Hdisj Hkeys].
  split; [done|]. split.
  - eexists. split; [exact Hceil|exact Hcount].
  - intros w Hw. split; [by apply Hdisj|].
    intros k w' Hk Heq. pose proof (Hkeys _ _ Hk) as <-.
    rewrite Heq, (Hdisj w Hw) in Hk. done.
Qed.

Lemma pool_accounting_invariant_witness :
  let options :=
    WorkerPoolOptions.mk (number.Int 2) (number.Int 0) VUndefined None in
  let p0 :=
    WorkerPool.mk (number.Int 2) None
      [WorkerProxy.mk 1 None; WorkerProxy.mk 2 None] ∅ VUndefined None in
  let ops :=
    [WorkerPool.GetWorker (Some "a") Complete;
     WorkerPool.GetWorker None (Failure VNull);
     WorkerPool.GetWorker (Some "c") Complete;
     WorkerPool.ReleaseWorker 1 VNull Complete;
     WorkerPool.ReleaseWorker 1 VNull Complete;
     WorkerPool.GetWorker (Some "b") Silent] in
  let p := WorkerPool.run ops p0 in
  WorkerPool.activeWorkersByPid p0 = ∅
  ∧ (∃ n, WorkerPool.workerMaxCount p = number.Int n
          ∧ Z.of_nat (length (WorkerPool.availableWorkers p))
            + Z.of_nat (size (WorkerPool.activeWorkersByPid p)) ≤ n)
  ∧ (∀ w, w ∈ WorkerPool.availableWorkers p →
          WorkerPool.activeWorkersByPid p !! WorkerProxy.id w = None
          ∧ ∀ k w', WorkerPool.activeWorkersByPid p !! k = Some w' →
                    WorkerProxy.id w' ≠ WorkerProxy.id w).
Proof.
  intros options p0 ops.
  apply (pool_accounting_invariant 4 options (λ _, Complete) 1 p0 3
           [ProxySetup 1; ProxySetup 2] ops); reflexivity.
Defined.

(** ** The message envelope *)

Section Envelope.

Import WorkerMessage.

Lemma errorJson_lookup error key :
  enumerable (errorJson error) !! key
  = if decide (key = "name") then Some (prop error "name")
    else if decide (key = "stack") then Some (prop error "stack")
    else if decide (key = "message") then Some (prop error "message")
    else enumerable error !! key.
Proof.
  unfold errorJson. simpl.
  rewrite lookup_union, !lookup_delete, !lookup_insert, lookup_empty.
  repeat case_decide; subst; simpl; try done.
  by destruct (enumerable error !! key).
Qed.

(** Reading one of the three named properties of a normalised error
    gives what the original error gave. *)
Lemma errorJson_prop error key :
  key = "message" ∨ key = "stack" ∨ key = "name" →
  prop (errorJson error) key = prop error key.
Proof.
  intros Hkey. unfold prop at 1. rewrite errorJson_lookup.
  destruct Hkey as [-> | [-> | ->]]; done.
Qed.

(** Normalising twice is normalising once. *)
Lemma errorJson_idempotent error :
  errorJson (errorJson error) = errorJson error.
Proof.
  unfold errorJson at 1. rewrite !errorJson_prop by auto.
  unfold errorJson at 2. f_equal.
  apply map_eq. intros key.
  rewrite !lookup_union, !lookup_delete, !lookup_insert, lookup_empty.
  rewrite errorJson_lookup.
  repeat case_decide; subst; simpl; try done.
Qed.

End Envelope.

(** C3 (as stated, fails on the code): a resolved-task message carries no
    error, but decoding its serialized record yields a message whose error
    is an object, with [message], [stack] and [name] all [undefined]. *)
Lemma envelope_round_trip_loses_absent_error :
  let m := WorkerMessage.taskResolved 7 (VObject [("a", VNumber 1)]) in
  let m' := WorkerMessage.create (WorkerMessage.toJson m) in
  WorkerMessage.error m = None
  ∧ WorkerMessage.error m'
    = Some {| enumerable :=
                <["name" := VUndefined]>
                  (<["stack" := VUndefined]>
                     (<["message" := VUndefined]> ∅));
              hidden := ∅ |}
  ∧ m' ≠ m.
Proof.
  split; [done|]. split.
  - simpl. do 2 f_equal.
  - intros H. apply (f_equal WorkerMessage.error) in H. discriminate H.
Qed.

(** C3 (amended): decoding the serialized record of a message reproduces
    its workerId, type, name and data; the decoded error is always an
    object, the normalised form of the original error, or of the empty
    object when there was none; from there on the round trip is exact.
    The serialized record always has an error object, the empty object
    when the message carries no error. *)
Theorem envelope_round_trip_normalised (m : WorkerMessage.t) :
  let json := WorkerMessage.toJson m in
  let m' := WorkerMessage.create json in
  WorkerMessage.workerId m' = WorkerMessage.workerId m
  ∧ WorkerMessage.type m' = WorkerMessage.type m
  ∧ WorkerMessage.name m' = WorkerMessage.name m
  ∧ WorkerMessage.data m' = WorkerMessage.data m
  ∧ WorkerMessage.error m'
    = Some (WorkerMessage.errorJson
              (default WorkerMessage.emptyObject (WorkerMessage.error m)))
  ∧ WorkerMessage.create (WorkerMessage.toJson m') = m'
  ∧ WorkerMessageContent.error json
    = Some (match WorkerMessage.error m with
            | Some error => WorkerMessage.errorJson error
            | None => WorkerMessage.emptyObject
            end).
Proof.
  destruct m as [workerId type name data [error|]];
    unfold WorkerMessage.create, WorkerMessage.toJson; simpl;
    rewrite ?errorJson_idempotent; done.
Qed.

(** ** The worker unit *)

Section Settle.

Import Worker.

Lemma calls_snoc cs c this :
  calls (cs ++ [c]) this = (call c (calls cs this)).2.
Proof. unfold calls. by rewrite foldl_snoc. Qed.

Lemma call_threadId c this : threadId (call c this).2 = threadId this.
Proof.
  destruct c; simpl; unfold resolve; try case_bool_decide; done.
Qed.

(** The flag of an instance records whether some call so far was a
    [reject]; the thread id never changes. *)
Lemma calls_state cs this :
  threadId (calls cs this) = threadId this
  ∧ isRejected (calls cs this) = isRejected this || existsb isReject cs.
Proof.
  induction cs as [|c cs IH] using rev_ind.
  - simpl. by rewrite orb_false_r.
  - rewrite calls_snoc, call_threadId, existsb_app. simpl.
    destruct IH as [-> IH]. split; [done|].
    destruct c; simpl; unfold resolve; try case_bool_decide; simpl;
      rewrite ?IH, ?orb_false_r, ?orb_true_r; done.
Qed.

Lemma posted_resolve data this :
  posted (Resolve data) this
  = if isRejected this then []
    else [WorkerMessage.toJson
            (WorkerMessage.taskResolved (threadId this) data)].
Proof.
  unfold posted. simpl. unfold resolve.
  destruct (isRejected this); simpl.
  - by rewrite drop_all.
  - by rewrite drop_app_length.
Qed.

Lemma posted_reject error this :
  posted (Reject error) this
  = [WorkerMessage.toJson (WorkerMessage.taskRejected (threadId this) error)].
Proof. unfold posted. simpl. by rewrite drop_app_length. Qed.

End Settle.

(** C4: on an instance that has seen the calls [before], [resolve] posts
    one TaskResolved record exactly when no [reject] is among [before] and
    posts nothing otherwise, whereas [reject] posts one TaskRejected
    record and sets the flag whatever came before; a [resolve] that
    follows a [resolve] posts under the same condition as the first, and
    a [reject] that follows a [reject] posts again. *)
Theorem settle_once_asymmetry
    (threadId : Z) (port : list WorkerMessageContent.t)
    (before : list Worker.Call) :
  let this := Worker.calls before (Worker.new threadId port) in
  (∀ data,
     Worker.posted (Worker.Resolve data) this
     = if existsb Worker.isReject before then []
       else [WorkerMessage.toJson
               (WorkerMessage.taskResolved threadId data)])
  ∧ (∀ error,
       Worker.posted (Worker.Reject error) this
       = [WorkerMessage.toJson (WorkerMessage.taskRejected threadId error)]
       ∧ Worker.isRejected (Worker.reject error this).2 = true)
  ∧ (∀ data data',
       Worker.posted (Worker.Resolve data')
         (Worker.resolve data this).2
       = if existsb Worker.isReject before then []
         else [WorkerMessage.toJson
                 (WorkerMessage.taskResolved threadId data')])
  ∧ (∀ error error',
       Worker.posted (Worker.Reject error')
         (Worker.reject error this).2
       = [WorkerMessage.toJson
            (WorkerMessage.taskRejected threadId error')]).
Proof.
  intros this.
  destruct (calls_state before (Worker.new threadId port)) as [Htid Hrej].
  fold this in Htid, Hrej. simpl in Htid, Hrej.
  repeat split.
  - intros data. by rewrite posted_resolve, Htid, Hrej.
  - by rewrite posted_reject, Htid.
  - intros data data'. rewrite posted_resolve.
    unfold Worker.resolve. rewrite Hrej.
    destruct (existsb Worker.isReject before); simpl; [by rewrite Hrej|].
    by rewrite Hrej, Htid.
  - intros error error'. rewrite posted_reject. simpl. by rewrite Htid.
Qed.

(** C9: once a [reject] has been called on an instance, [resolve] returns
    [undefined] instead of ['task_resolved'] and leaves the instance and
    the port as they were; on an instance that has seen no [reject] (here,
    only the calls of [before] that are not one) it returns
    ['task_resolved']. *)
Theorem resolve_after_reject_returns_undefined
    (threadId : Z) (port : list WorkerMessageContent.t)
    (before between : list Worker.Call) (error : option ErrorJson)
    (data : JsValue) :
  let this :=
    Worker.calls (before ++ Worker.Reject error :: between)
      (Worker.new threadId port) in
  let fresh := Worker.calls (filter (λ c, ¬ Worker.isReject c) before)
                 (Worker.new threadId port) in
  Worker.resolve data this = (None, this)
  ∧ (Worker.resolve data fresh).1 = Some task_resolved.
Proof.
  intros this fresh. split.
  - destruct (calls_state (before ++ Worker.Reject error :: between)
                (Worker.new threadId port)) as [_ Hrej].
    fold this in Hrej. rewrite existsb_app in Hrej. simpl in Hrej.
    rewrite orb_true_r in Hrej.
    unfold Worker.resolve. by rewrite Hrej.
  - destruct (calls_state (filter (λ c, ¬ Worker.isReject c) before)
                (Worker.new threadId port)) as [_ Hrej].
    fold fresh in Hrej. simpl in Hrej.
    assert (Hnone : existsb Worker.isReject
                      (filter (λ c, ¬ Worker.isReject c) before) = false).
    { clear. induction before as [|c cs IH]; [done|].
      rewrite filter_cons. destruct c; simpl; try done. }
    rewrite Hnone in Hrej. unfold Worker.resolve. by rewrite Hrej.
Qed.

(** ** Acquire and release *)

Section Acquire.

Import WorkerPool.

(** Below the ceiling, with a completed load, [getWorker] hands out the
    proxy at the front of the idle list. *)
Lemma getWorker_front n pointer this front rest :
  invariant n this →
  availableWorkers this = front :: rest →
  getWorker pointer Complete this
  = (Return (Some (WorkerProxy.mk (WorkerProxy.id front) pointer)),
     mk (workerMaxCount this) (workerLoaderPath this) rest
        (<[WorkerProxy.id front :=
             WorkerProxy.mk (WorkerProxy.id front) pointer]>
           (activeWorkersByPid this))
        (sharedData this) (workerReleaseHandler this),
     [ProxyLoad (WorkerProxy.id front) pointer]).
Proof.
  intros [Hmax Hcount _ _ _] Hav. unfold getWorker, workerCount in *.
  rewrite Hmax, Hav in *. simpl in *.
  rewrite bool_decide_eq_true_2 by lia. done.
Qed.

(** A proxy at the back of the idle list is handed out once the proxies
    in front of it have been. *)
Lemma getWorker_back n pointer ws x this :
  invariant n this →
  availableWorkers this = ws ++ [x] →
  ∃ this' events,
    getWorker pointer Complete
      (run (replicate (length ws) (GetWorker pointer Complete)) this)
    = (Return (Some (WorkerProxy.mk (WorkerProxy.id x) pointer)),
       this', events).
Proof.
  revert this. induction ws as [|w ws IH]; intros this Hinv Hav; simpl.
  - erewrite getWorker_front by eauto. eauto.
  - apply IH.
    + by apply getWorker_invariant.
    + erewrite getWorker_front by eauto. done.
Qed.

(** What [getWorker] hands out, call after call, is a prefix of the idle
    list. *)
Lemma acquired_prefix pointers this :
  acquired pointers this `prefix_of` idleIds this.
Proof.
  revert this. induction pointers as [|pointer pointers IH]; intros this.
  - apply prefix_nil.
  - simpl. unfold getWorker.
    destruct (number.lt _ _); [|apply IH].
    unfold idleIds.
    destruct (availableWorkers this) as [|w rest] eqn:Hav; simpl.
    + specialize (IH this). unfold idleIds in IH. by rewrite Hav in IH.
    + apply prefix_cons. apply IH.
Qed.

End Acquire.

(** C5: with as many busy proxies as the ceiling allows, [getWorker]
    returns null without throwing, sends no load request and leaves the
    pool as it was, so that a second call gives null again; a pool below
    its ceiling whose idle list is empty answers the same way. *)
Theorem getWorker_at_ceiling
    (pointer pointer' : option string) (reply reply' : Reply)
    (full drained : WorkerPool.t) :
  WorkerPool.workerMaxCount full
  = number.Int (Z.of_nat (size (WorkerPool.activeWorkersByPid full))) →
  number.lt
    (number.Int (Z.of_nat (size (WorkerPool.activeWorkersByPid drained))))
    (WorkerPool.workerMaxCount drained) = true →
  WorkerPool.availableWorkers drained = [] →
  WorkerPool.getWorker pointer reply full = (Return None, full, [])
  ∧ WorkerPool.getWorker pointer' reply'
      (WorkerPool.getWorker pointer reply full).1.2
    = (Return None, full, [])
  ∧ WorkerPool.getWorker pointer reply drained = (Return None, drained, []).
Proof.
  intros Hfull Hbelow Hempty.
  assert (Hnull : ∀ p r,
    WorkerPool.getWorker p r full = (Return None, full, [])).
  { intros p r. unfold WorkerPool.getWorker. rewrite Hfull. simpl.
    rewrite bool_decide_eq_false_2 by lia. done. }
  split; [apply Hnull|]. split.
  - rewrite (Hnull pointer reply). apply Hnull.
  - unfold WorkerPool.getWorker. by rewrite Hbelow, Hempty.
Qed.

Lemma getWorker_at_ceiling_witness :
  let full :=
    WorkerPool.mk (number.Int 1) None []
      {[ 1 := WorkerProxy.mk 1 (Some "a") ]} VUndefined None in
  let drained :=
    WorkerPool.mk (number.Int 3) None []
      {[ 1 := WorkerProxy.mk 1 (Some "a") ]} VUndefined None in
  WorkerPool.getWorker (Some "b") Complete full = (Return None, full, [])
  ∧ WorkerPool.getWorker None Complete
      (WorkerPool.getWorker (Some "b") Complete full).1.2
    = (Return None, full, [])
  ∧ WorkerPool.getWorker (Some "b") Complete drained
    = (Return None, drained, []).
Proof.
  intros full drained.
  apply (getWorker_at_ceiling (Some "b") None Complete Complete full drained);
    reflexivity.
Defined.

(** C7: releasing an id that is not in the busy map returns normally and
    leaves the pool exactly as it was; the only thing that happens is the
    log line: no dispose request is sent and the release handler is not
    called. *)
Theorem releaseWorker_unknown_id
    (id : Z) (data : JsValue) (reply : Reply) (this : WorkerPool.t) :
  WorkerPool.activeWorkersByPid this !! id = None →
  WorkerPool.releaseWorker id data reply this
  = (Return (), this, [ConsoleLog (WorkerPool.notFoundLine id)]).
Proof. intros Hid. unfold WorkerPool.releaseWorker. by rewrite Hid. Qed.

Lemma releaseWorker_unknown_id_witness :
  let this :=
    WorkerPool.mk (number.Int 3) None [WorkerProxy.mk 2 None]
      {[ 1 := WorkerProxy.mk 1 (Some "a") ]} VUndefined
      (Some (λ _ _, Return ())) in
  WorkerPool.activeWorkersByPid this !! 123 = None
  ∧ WorkerPool.releaseWorker 123 (VString "data") Complete this
    = (Return (), this,
       [ConsoleLog "No worker with the specified ID #123 was found"]).
Proof.
  intros this. split; [reflexivity|].
  apply (releaseWorker_unknown_id 123 (VString "data") Complete this).
  reflexivity.
Defined.

(** C6 (as stated, fails on the code): a pool of two is set up and
    [getWorker] returns the proxy with id 1. When the thread answers the
    dispose request of [releaseWorker(1)] with a failure, the call throws
    and the pool is left as it was: id 1 is still busy, the busy count is
    1 and not 0 as before the acquire, the proxy is not idle, and the
    next calls of [getWorker] return the other proxy and then null. When
    the thread does not answer, the call stays pending, with the same
    pool. *)
Lemma acquire_release_dispose_unanswered :
  let options :=
    WorkerPoolOptions.mk (number.Int 2) (number.Int 0) VUndefined None in
  let made := WorkerPool.setup 4 options (λ _, Complete) WorkerPool.new 1 in
  let p := made.1.1.2 in
  let acquired := WorkerPool.getWorker (Some "a") Complete p in
  let p1 := acquired.1.2 in
  let released :=
    WorkerPool.releaseWorker 1 VNull (Failure (VString "gone")) p1 in
  let p2 := released.1.2 in
  let next := WorkerPool.getWorker (Some "b") Complete p2 in
  made.1.1.1 = Return ()
  ∧ size (WorkerPool.activeWorkersByPid p) = 0%nat
  ∧ acquired.1.1 = Return (Some (WorkerProxy.mk 1 (Some "a")))
  ∧ released.1.1 = Throw (VString "gone")
  ∧ p2 = p1
  ∧ WorkerPool.activeWorkersByPid p2 !! 1
    = Some (WorkerProxy.mk 1 (Some "a"))
  ∧ size (WorkerPool.activeWorkersByPid p2) = 1%nat
  ∧ WorkerPool.idleIds p2 = [2]
  ∧ next.1.1 = Return (Some (WorkerProxy.mk 2 (Some "b")))
  ∧ (WorkerPool.getWorker (Some "b") Complete next.1.2).1.1 = Return None
  ∧ WorkerPool.releaseWorker 1 VNull Silent p1
    = (Pending, p1, [ProxyDispose 1]).
Proof. repeat split. Qed.

(** C6 (amended): in a pool reached from a completed [setup], when
    [getWorker] returns a proxy and [releaseWorker] is called with its id
    and the dispose request completes, the id is gone from the busy map,
    which is again the map of before the acquire (so the busy count is
    back at its value), the idle list is below the ceiling and the proxy
    is appended to it, and after the proxies queued in front of it have
    been handed out [getWorker] returns the proxy with that id again.
    When the dispose request fails or is not answered, [releaseWorker]
    throws the data of the failure, or stays pending, and leaves the
    pool as it was, the id busy. *)
Theorem acquire_release_round_trip
    cpus options replies next p0 next' events ops
    pointer reply w p1 events1 data pointer' :
  WorkerPool.setup cpus options replies WorkerPool.new next
  = (Return (), p0, next', events) →
  WorkerPool.workerMaxCount p0
  = number.Int (Z.of_nat (length (WorkerPool.availableWorkers p0))) →
  let p := WorkerPool.run ops p0 in
  WorkerPool.getWorker pointer reply p = (Return (Some w), p1, events1) →
  let p2 :=
    (WorkerPool.releaseWorker (WorkerProxy.id w) data Complete p1).1.2 in
  WorkerPool.activeWorkersByPid p1 !! WorkerProxy.id w = Some w
  ∧ WorkerPool.activeWorkersByPid p2 !! WorkerProxy.id w = None
  ∧ WorkerPool.activeWorkersByPid p2 = WorkerPool.activeWorkersByPid p
  ∧ size (WorkerPool.activeWorkersByPid p2)
    = size (WorkerPool.activeWorkersByPid p)
  ∧ number.lt
      (number.Int (Z.of_nat (length (WorkerPool.availableWorkers p1))))
      (WorkerPool.workerMaxCount p1) = true
  ∧ WorkerPool.availableWorkers p2 = WorkerPool.availableWorkers p1 ++ [w]
  ∧ (∃ p3 events3,
       WorkerPool.getWorker pointer' Complete
         (WorkerPool.run
            (replicate (length (WorkerPool.availableWorkers p1))
               (WorkerPool.GetWorker pointer' Complete)) p2)
       = (Return (Some (WorkerProxy.mk (WorkerProxy.id w) pointer')),
          p3, events3))
  ∧ ∀ unanswered, unanswered ≠ Complete →
      WorkerPool.releaseWorker (WorkerProxy.id w) data unanswered p1
      = (WorkerProxy.settle unanswered, p1,
         [ProxyDispose (WorkerProxy.id w)]).
Proof.
  intros Hsetup Hmax p Hget p2.
  pose proof (setup_invariant _ _ _ _ _ _ _ Hsetup Hmax) as Hinv.
  apply (run_invariant _ ops) in Hinv. fold p in Hinv.
  set (n := Z.of_nat (length (WorkerPool.availableWorkers p0))) in *.
  pose proof (getWorker_invariant n pointer reply p Hinv) as Hinv1.
  rewrite Hget in Hinv1. simpl in Hinv1.
  pose proof (releaseWorker_invariant n (WorkerProxy.id w) data Complete
                p1 Hinv1) as Hinv2.
  fold p2 in Hinv2.
  destruct Hinv as [Hceil Hcount Hnodup Hdisj Hkeys].
  unfold WorkerPool.getWorker, WorkerPool.workerCount in *.
  rewrite Hceil in Hget. simpl in Hget.
  case_bool_decide as Hlt; [|done].
  destruct (WorkerPool.availableWorkers p) as [|front rest] eqn:Hav;
    [done|].
  simpl in Hget, Hcount.
  assert (Hnone :
    WorkerPool.activeWorkersByPid p !! WorkerProxy.id front = None)
    by (apply Hdisj; left).
  destruct reply; simpl in Hget; [|done|done].
  injection Hget as <- <- _.
  assert (Hbelow : number.lt (number.Int (Z.of_nat (length rest)))
                     (number.Int n) = true).
  { simpl. apply bool_decide_eq_true_2. lia. }
  assert (Hp2 : WorkerPool.availableWorkers p2
                = rest ++ [WorkerProxy.mk (WorkerProxy.id front) pointer]
                ∧ WorkerPool.activeWorkersByPid p2
                  = WorkerPool.activeWorkersByPid p).
  { subst p2. unfold WorkerPool.releaseWorker. simpl.
    rewrite lookup_insert_eq. simpl. simpl in Hbelow. rewrite Hbelow.
    rewrite delete_insert_eq, delete_id by done.
    by destruct (WorkerPool.workerReleaseHandler p). }
  destruct Hp2 as [Hav2 Hact2]. simpl.
  split; [apply lookup_insert_eq|].
  split; [by rewrite Hact2|].
  split; [done|].
  split; [by rewrite Hact2|].
  split; [by rewrite ?Hceil|].
  split; [done|].
  split; [exact (getWorker_back n pointer' rest _ p2 Hinv2 Hav2)|].
  intros unanswered Hunanswered. unfold WorkerPool.releaseWorker. simpl.
  rewrite lookup_insert_eq. by destruct unanswered.
Qed.

Lemma acquire_release_round_trip_witness :
  let options :=
    WorkerPoolOptions.mk (number.Int 2) (number.Int 0) VUndefined None in
  let p0 :=
    WorkerPool.mk (number.Int 2) None
      [WorkerProxy.mk 1 None; WorkerProxy.mk 2 None] ∅ VUndefined None in
  let w := WorkerProxy.mk 1 (Some "a") in
  let p1 :=
    WorkerPool.mk (number.Int 2) None [WorkerProxy.mk 2 None]
      {[ 1 := w ]} VUndefined None in
  let p2 := (WorkerPool.releaseWorker 1 VNull Complete p1).1.2 in
  WorkerPool.activeWorkersByPid p1 !! 1 = Some w
  ∧ WorkerPool.activeWorkersByPid p2 !! 1 = None
  ∧ WorkerPool.activeWorkersByPid p2 = ∅
  ∧ size (WorkerPool.activeWorkersByPid p2)
    = size (∅ : gmap Z WorkerProxy.t)
  ∧ number.lt
      (number.Int (Z.of_nat (length (WorkerPool.availableWorkers p1))))
      (WorkerPool.workerMaxCount p1) = true
  ∧ WorkerPool.availableWorkers p2 = WorkerPool.availableWorkers p1 ++ [w]
  ∧ (∃ p3 events3,
       WorkerPool.getWorker (Some "b") Complete
         (WorkerPool.run
            (replicate (length (WorkerPool.availableWorkers p1))
               (WorkerPool.GetWorker (Some "b") Complete)) p2)
       = (Return (Some (WorkerProxy.mk 1 (Some "b"))), p3, events3))
  ∧ ∀ unanswered, unanswered ≠ Complete →
      WorkerPool.releaseWorker 1 VNull unanswered p1
      = (WorkerProxy.settle unanswered, p1, [ProxyDispose 1]).
Proof.
  intros options p0 w p1 p2.
  apply (acquire_release_round_trip 4 options (λ _, Complete) 1 p0 3
           [ProxySetup 1; ProxySetup 2] [] (Some "a") Complete w p1
           [ProxyLoad 1 (Some "a")] VNull (Some "b")); reflexivity.
Defined.

(** C10: the idle list is a queue. A proxy that [getWorker] returns was at
    the front of the idle list and is removed from there; a proxy that
    [releaseWorker] puts back goes to the end; the proxies of [setup] are
    queued in the order of their creation; and the proxies handed out by
    any sequence of [getWorker] calls are a prefix of the idle list, in
    its order. *)
Theorem idle_queue_fifo
    cpus options replies next p0 next' events
    pointer reply this w this' events' id data worker pointers :
  WorkerPool.setup cpus options replies WorkerPool.new next
  = (Return (), p0, next', events) →
  WorkerPool.getWorker pointer reply this
  = (Return (Some w), this', events') →
  WorkerPool.activeWorkersByPid this' !! id = Some worker →
  number.lt
    (number.Int (Z.of_nat (length (WorkerPool.availableWorkers this'))))
    (WorkerPool.workerMaxCount this') = true →
  WorkerPool.availableWorkers p0
  = WorkerPool.created
      (number.iterations (WorkerPool.workerMaxCount p0)) next
  ∧ (∃ front,
       WorkerPool.availableWorkers this
       = front :: WorkerPool.availableWorkers this'
       ∧ WorkerProxy.id w = WorkerProxy.id front)
  ∧ WorkerPool.availableWorkers
      (WorkerPool.releaseWorker id data Complete this').1.2
    = WorkerPool.availableWorkers this' ++ [worker]
  ∧ WorkerPool.acquired pointers this `prefix_of` WorkerPool.idleIds this.
Proof.
  intros Hsetup Hget Hid Hbelow.
  split; [by apply setup_Return in Hsetup as [? _]|].
  split.
  - unfold WorkerPool.getWorker in Hget.
    destruct (number.lt _ _); [|done].
    destruct (WorkerPool.availableWorkers this) as [|front rest]; [done|].
    simpl in Hget. destruct reply; simpl in Hget; try done.
    injection Hget as <- <- _. by exists front.
  - split; [|apply acquired_prefix].
    unfold WorkerPool.releaseWorker. rewrite Hid, Hbelow.
    by destruct (WorkerPool.workerReleaseHandler this').
Qed.

Lemma idle_queue_fifo_witness :
  let options :=
    WorkerPoolOptions.mk (number.Int 3) (number.Int 1) VUndefined None in
  let p0 :=
    WorkerPool.mk (number.Int 3) None
      [WorkerProxy.mk 5 None; WorkerProxy.mk 6 None; WorkerProxy.mk 7 None]
      ∅ VUndefined None in
  let this' := (WorkerPool.getWorker (Some "a") Complete p0).1.2 in
  WorkerPool.availableWorkers p0
  = [WorkerProxy.mk 5 None; WorkerProxy.mk 6 None; WorkerProxy.mk 7 None]
  ∧ (∃ front,
       WorkerPool.availableWorkers p0
       = front :: WorkerPool.availableWorkers this'
       ∧ 5 = WorkerProxy.id front)
  ∧ WorkerPool.availableWorkers
      (WorkerPool.releaseWorker 5 VNull Complete this').1.2
    = [WorkerProxy.mk 6 None; WorkerProxy.mk 7 None;
       WorkerProxy.mk 5 (Some "a")]
  ∧ WorkerPool.acquired [Some "x"; None] p0 `prefix_of` [5; 6; 7].
Proof.
  intros options p0 this'.
  apply (idle_queue_fifo 8 options (λ _, Complete) 5 p0 8
           [ProxySetup 5; ProxySetup 6; ProxySetup 7]
           (Some "a") Complete p0 (WorkerProxy.mk 5 (Some "a")) this'
           [ProxyLoad 5 (Some "a")] 5 VNull (WorkerProxy.mk 5 (Some "a"))
           [Some "x"; None]); reflexivity.
Defined.

(** ** The loader *)

Section Loader.

Import DefaultWorkerLoader.

Lemma construct_Return WorkerClass args heap instance heap' :
  construct WorkerClass args heap = (Return instance, heap') →
  WorkerClass = Some (classOf instance)
  ∧ address instance = heap
  ∧ constructorArgs instance = args
  ∧ heap' = S heap.
Proof.
  destruct WorkerClass as [c|]; simpl; [|done].
  intros [= <- <-]. done.
Qed.

(** [load] on a pointer that is not falsy. *)
Lemma load_Some node this pointer args heap :
  falsy (Some pointer) = false →
  load node this (Some pointer) args heap
  = if existsSync node (buildPath node pointer)
    then construct (requireDefault node (buildPath node pointer)) args heap
    else match bindings this !! pointer with
         | Some c => construct (Some c) args heap
         | None => (Throw (Error (workerNotFoundMessage pointer)), heap)
         end.
Proof.
  intros Hpointer. unfold load. rewrite Hpointer.
  change (default EmptyString (Some pointer)) with pointer.
  destruct (existsSync node (buildPath node pointer)); [done|].
  destruct (bindings this !! pointer) as [c|] eqn:Hbound.
  - rewrite bool_decide_eq_true_2 by eauto. done.
  - rewrite bool_decide_eq_false_2; [done|]. by intros [? ?].
Qed.

Lemma load_Return node this pointer args heap instance heap' :
  load node this pointer args heap = (Return instance, heap') →
  address instance = heap
  ∧ heap' = S heap
  ∧ constructorArgs instance = args
  ∧ ∃ name,
      pointer = Some name
      ∧ Some (classOf instance)
        = if existsSync node (buildPath node name)
          then requireDefault node (buildPath node name)
          else bindings this !! name.
Proof.
  destruct (falsy pointer) eqn:Hpointer.
  { unfold load. by rewrite Hpointer. }
  destruct pointer as [name|]; [|done].
  rewrite load_Some by done. intros H.
  assert (Hc : construct
                 (if existsSync node (buildPath node name)
                  then requireDefault node (buildPath node name)
                  else bindings this !! name) args heap
               = (Return instance, heap')).
  { destruct (existsSync node (buildPath node name)); [done|].
    by destruct (bindings this !! name). }
  apply construct_Return in Hc as (Hclass & ? & ? & ?).
  repeat split; try done. exists name. by rewrite Hclass.
Qed.

End Loader.

(** C8: [load] throws the undefined-pointer error for a falsy pointer.
    For any other pointer it first looks for a file at the built path:
    when one exists the class is the default export of that file and the
    bindings are not consulted; only when none exists is the class taken
    from the bindings; and when the bindings have no entry either, it
    throws an error whose message ends with the pointer. Whenever [load]
    returns, the instance is a newly allocated object of the resolved
    class, constructed with the given arguments. *)
Theorem load_resolution_order
    (node : Node) (this : DefaultWorkerLoader.t)
    (args : option (gmap string JsValue)) (heap : nat) :
  (∀ pointer,
     DefaultWorkerLoader.falsy pointer = true →
     DefaultWorkerLoader.load node this pointer args heap
     = (Throw (UndefinedPointerError undefinedPointerMessage), heap))
  ∧ (∀ pointer c,
       DefaultWorkerLoader.falsy (Some pointer) = false →
       existsSync node (buildPath node pointer) = true →
       requireDefault node (buildPath node pointer) = Some c →
       DefaultWorkerLoader.load node this (Some pointer) args heap
       = (Return {| address := heap; classOf := c;
                    constructorArgs := args |}, S heap))
  ∧ (∀ pointer that,
       existsSync node (buildPath node pointer) = true →
       DefaultWorkerLoader.load node that (Some pointer) args heap
       = DefaultWorkerLoader.load node this (Some pointer) args heap)
  ∧ (∀ pointer c,
       DefaultWorkerLoader.falsy (Some pointer) = false →
       existsSync node (buildPath node pointer) = false →
       DefaultWorkerLoader.bindings this !! pointer = Some c →
       DefaultWorkerLoader.load node this (Some pointer) args heap
       = (Return {| address := heap; classOf := c;
                    constructorArgs := args |}, S heap))
  ∧ (∀ pointer,
       DefaultWorkerLoader.falsy (Some pointer) = false →
       existsSync node (buildPath node pointer) = false →
       DefaultWorkerLoader.bindings this !! pointer = None →
       DefaultWorkerLoader.load node this (Some pointer) args heap
       = (Throw (Error (workerNotFoundMessage pointer)), heap)
       ∧ ∃ text, workerNotFoundMessage pointer = text +:+ pointer)
  ∧ (∀ pointer instance heap',
       DefaultWorkerLoader.load node this pointer args heap
       = (Return instance, heap') →
       address instance = heap
       ∧ heap' = S heap
       ∧ constructorArgs instance = args
       ∧ ∃ name,
           pointer = Some name
           ∧ Some (classOf instance)
             = if existsSync node (buildPath node name)
               then requireDefault node (buildPath node name)
               else DefaultWorkerLoader.bindings this !! name).
Proof.
  split; [|split; [|split; [|split; [|split]]]].
  - intros pointer Hpointer. unfold DefaultWorkerLoader.load.
    by rewrite Hpointer.
  - intros pointer c Hpointer Hfile Hdefault.
    by rewrite load_Some, Hfile, Hdefault.
  - intros pointer that Hfile.
    destruct (DefaultWorkerLoader.falsy (Some pointer)) eqn:Hpointer.
    + unfold DefaultWorkerLoader.load. by rewrite Hpointer.
    + by rewrite !load_Some, Hfile.
  - intros pointer c Hpointer Hfile Hbound.
    by rewrite load_Some, Hfile, Hbound.
  - intros pointer Hpointer Hfile Hbound. split.
    + by rewrite load_Some, Hfile, Hbound.
    + by eexists.
  - intros pointer instance heap'. apply load_Return.
Qed.

Lemma load_resolution_order_witness :
  let node :=
    {| cwd := "/app";
       resolve := String.concat "/";
       existsSync := String.eqb "/app/build/worker.js";
       requireDefault := λ path,
         if String.eqb "/app/build/worker.js" path
         then Some (Class "FileWorker") else None |} in
  let this :=
    DefaultWorkerLoader.mk
      (<["worker" := Class "Bound"]> {[ "label" := Class "Labelled" ]})
      VUndefined in
  DefaultWorkerLoader.load node this None None 0%nat
  = (Throw (UndefinedPointerError undefinedPointerMessage), 0%nat)
  ∧ DefaultWorkerLoader.load node this (Some EmptyString) None 0%nat
    = (Throw (UndefinedPointerError undefinedPointerMessage), 0%nat)
  ∧ DefaultWorkerLoader.load node this (Some "worker") None 0%nat
    = (Return {| address := 0; classOf := Class "FileWorker";
                 constructorArgs := None |}, 1%nat)
  ∧ DefaultWorkerLoader.load node this (Some "label") None 0%nat
    = (Return {| address := 0; classOf := Class "Labelled";
                 constructorArgs := None |}, 1%nat)
  ∧ DefaultWorkerLoader.load node this (Some "missing-pointer") None 0%nat
    = (Throw (Error "A valid path to a worker was not specified or a worker was not assigned to the given name missing-pointer"),
       0%nat).
Proof.
  intros node this.
  destruct (load_resolution_order node this None 0%nat)
    as (Hfalsy & Hfile & _ & Hbound & Hmissing & _).
  split; [apply Hfalsy; reflexivity|].
  split; [apply Hfalsy; reflexivity|].
  split; [apply Hfile; reflexivity|].
  split; [apply Hbound; reflexivity|].
  apply Hmissing; reflexivity.
Defined.

(** * Further properties *)

#[local] Set Warnings "-clear-no-such-hyp".

(** ** The pool: conservation of proxies *)

Section Conservation.

Import WorkerPool.

Lemma step_conserved n this op :
  invariant n this →
  workerCount this = n →
  workerCount (step this op) = n ∧ poolIds (step this op) = poolIds this.
Proof.
  intros [Hmax Hcount Hnodup Hdisj Hkeys] Hfull.
  unfold poolIds, idleIds, workerCount in *.
  destruct op as [pointer reply|id data reply|handler]; simpl; [| |done].
  - unfold getWorker.
    destruct (number.lt _ _); [|done].
    destruct (availableWorkers this) as [|front rest] eqn:Hav;
      simpl in *; [by rewrite Hav|].
    assert (Hnone : activeWorkersByPid this !! WorkerProxy.id front = None)
      by (apply Hdisj; left).
    rewrite map_size_insert_None by done. rewrite dom_insert_L.
    split; [lia|]. clear. set_solver.
  - unfold releaseWorker.
    destruct (activeWorkersByPid this !! id) as [worker|] eqn:Hid; [|done].
    destruct reply; simpl; [|done|done].
    assert (Hsize : size (activeWorkersByPid this)
                    = S (size (delete id (activeWorkersByPid this)))).
    { rewrite <- (insert_id _ _ _ Hid) at 1. rewrite <- insert_delete_eq.
      apply map_size_insert_None, lookup_delete_eq. }
    rewrite Hmax. simpl. rewrite bool_decide_eq_true_2 by lia.
    assert (Hstate :
      Z.of_nat (length (availableWorkers this ++ [worker]))
      + Z.of_nat (size (delete id (activeWorkersByPid this))) = n
      ∧ list_to_set (WorkerProxy.id <$> availableWorkers this ++ [worker])
        ∪ dom (delete id (activeWorkersByPid this))
        = (list_to_set (WorkerProxy.id <$> availableWorkers this)
           ∪ dom (activeWorkersByPid this) : gset Z)).
    { split; [rewrite length_app; simpl; lia|].
      rewrite fmap_app, list_to_set_app_L, dom_delete_L. simpl.
      rewrite (Hkeys _ _ Hid).
      assert (Hin : id ∈ dom (activeWorkersByPid this))
        by by apply elem_of_dom_2 in Hid.
      clear -Hin. apply set_eq. intros k.
      destruct (decide (k = id)) as [->|Hne]; set_solver. }
    by destruct (workerReleaseHandler this).
Qed.

Lemma run_conserved n ops this :
  invariant n this →
  workerCount this = n →
  workerCount (run ops this) = n ∧ poolIds (run ops this) = poolIds this.
Proof.
  revert this. induction ops as [|op ops IH]; intros this Hinv Hfull; simpl.
  - done.
  - destruct (step_conserved n this op Hinv Hfull) as [Hfull' Hids].
    destruct (IH (step this op)) as [? ?];
      [by apply step_invariant|done|].
    split; [done|congruence].
Qed.

Lemma setup_full cpus options replies next p next' events :
  setup cpus options replies new next = (Return (), p, next', events) →
  workerCount p = Z.of_nat (length (availableWorkers p)).
Proof.
  intros H. apply setup_Return in H as [_ Hact].
  unfold workerCount. rewrite Hact, map_size_empty. lia.
Qed.

End Conservation.

(** X1: from a completed [setup] that created as many proxies as its
    ceiling says (the ceiling is a whole number, not negative), whatever
    is called and however the handshakes end, the idle and the busy
    proxies together are always exactly [workerMaxCount] many, and they
    are always the proxies that [setup] created: none is lost, none is
    added, none is queued twice. *)
Theorem pool_conservation
    cpus options replies next p0 next' events ops :
  WorkerPool.setup cpus options replies WorkerPool.new next
  = (Return (), p0, next', events) →
  WorkerPool.workerMaxCount p0
  = number.Int (Z.of_nat (length (WorkerPool.availableWorkers p0))) →
  let p := WorkerPool.run ops p0 in
  number.Int (WorkerPool.workerCount p) = WorkerPool.workerMaxCount p
  ∧ poolIds p = list_to_set (WorkerPool.idleIds p0)
  ∧ NoDup (WorkerPool.idleIds p).
Proof.
  intros Hsetup Hmax p.
  pose proof (setup_invariant _ _ _ _ _ _ _ Hsetup Hmax) as Hinv.
  pose proof (setup_full _ _ _ _ _ _ _ Hsetup) as Hfull.
  pose proof (setup_Return _ _ _ _ _ _ _ Hsetup) as [_ Hact].
  destruct (run_conserved _ ops _ Hinv Hfull) as [Hcount Hids].
  apply (run_invariant _ ops) in Hinv. destruct Hinv as [Hceil _ Hnodup _ _].
  fold p in Hcount, Hids, Hceil, Hnodup.
  split; [by rewrite Hcount, Hceil|]. split; [|done].
  rewrite Hids. unfold poolIds. rewrite Hact, dom_empty_L. set_solver.
Qed.

Lemma pool_conservation_witness :
  let options :=
    WorkerPoolOptions.mk (number.Int 2) (number.Int 0) VUndefined None in
  let p0 :=
    WorkerPool.mk (number.Int 2) None
      [WorkerProxy.mk 1 None; WorkerProxy.mk 2 None] ∅ VUndefined None in
  let ops :=
    [WorkerPool.GetWorker (Some "a") (Failure VNull);
     WorkerPool.GetWorker None Complete;
     WorkerPool.ReleaseWorker 2 VNull Silent;
     WorkerPool.ReleaseWorker 1 VNull Complete] in
  let p := WorkerPool.run ops p0 in
  number.Int (WorkerPool.workerCount p) = WorkerPool.workerMaxCount p
  ∧ poolIds p = list_to_set (WorkerPool.idleIds p0)
  ∧ NoDup (WorkerPool.idleIds p).
Proof.
  intros options p0 ops.
  apply (pool_conservation 4 options (λ _, Complete) 1 p0 3
           [ProxySetup 1; ProxySetup 2] ops); reflexivity.
Defined.

(** ** The pool: capacity queries *)

Section Capacity.

Import WorkerPool.

(** What holds of every pool reached from a completed [setup]. *)
Lemma reached_full cpus options replies next p0 next' events ops :
  setup cpus options replies new next = (Return (), p0, next', events) →
  workerMaxCount p0
  = number.Int (Z.of_nat (length (availableWorkers p0))) →
  ∃ n, invariant n (run ops p0) ∧ workerCount (run ops p0) = n.
Proof.
  intros Hsetup Hmax.
  pose proof (setup_invariant _ _ _ _ _ _ _ Hsetup Hmax) as Hinv.
  pose proof (setup_full _ _ _ _ _ _ _ Hsetup) as Hfull.
  eexists. split.
  - by apply run_invariant.
  - by apply run_conserved.
Qed.

(** One call keeps the ceiling and keeps the idle list within it. *)
Lemma step_bounded n this op :
  workerMaxCount this = number.Int n →
  Z.of_nat (length (availableWorkers this)) ≤ n →
  workerMaxCount (step this op) = number.Int n
  ∧ Z.of_nat (length (availableWorkers (step this op))) ≤ n.
Proof.
  intros Hmax Hlen.
  destruct op as [pointer reply|id data reply|handler]; simpl; [| |done].
  - unfold getWorker. destruct (number.lt _ _); [|done].
    destruct (availableWorkers this) as [|front rest] eqn:Hav; simpl.
    + by rewrite Hav.
    + simpl in Hlen. split; [done|lia].
  - unfold releaseWorker.
    destruct (activeWorkersByPid this !! id) as [worker|]; [|done].
    destruct reply; simpl; try done.
    assert (Hpush : Z.of_nat (length
              (if number.lt
                    (number.Int (Z.of_nat (length (availableWorkers this))))
                    (workerMaxCount this)
               then availableWorkers this ++ [worker]
               else availableWorkers this)) ≤ n).
    { rewrite Hmax. simpl. case_bool_decide; [|done].
      rewrite length_app. simpl. lia. }
    by destruct (workerReleaseHandler this).
Qed.

End Capacity.

(** X2: in every pool reached from a completed [setup] that created as
    many proxies as its ceiling says,
    [countAvailableWorkers] is the length of the idle list,
    [hasAvailableWorker] says whether the idle list is non-empty, and it
    is true exactly when [getWorker] (its load request completing) hands
    out a proxy. *)
Theorem capacity_queries_agree
    cpus options replies next p0 next' events ops pointer :
  WorkerPool.setup cpus options replies WorkerPool.new next
  = (Return (), p0, next', events) →
  WorkerPool.workerMaxCount p0
  = number.Int (Z.of_nat (length (WorkerPool.availableWorkers p0))) →
  let p := WorkerPool.run ops p0 in
  WorkerPool.countAvailableWorkers p
  = number.Int (Z.of_nat (length (WorkerPool.availableWorkers p)))
  ∧ WorkerPool.hasAvailableWorker p
    = bool_decide (WorkerPool.availableWorkers p ≠ [])
  ∧ ((∃ w, (WorkerPool.getWorker pointer Complete p).1.1
           = Return (Some w))
     ↔ WorkerPool.hasAvailableWorker p = true).
Proof.
  intros Hsetup Hmax p.
  destruct (reached_full _ _ _ _ _ _ _ ops Hsetup Hmax)
    as (n & [Hceil _ _ _ _] & Hfull).
  fold p in Hceil, Hfull.
  unfold WorkerPool.countAvailableWorkers, WorkerPool.hasAvailableWorker,
    WorkerPool.getWorker, WorkerPool.workerCount in *.
  rewrite Hceil. simpl.
  destruct (WorkerPool.availableWorkers p) as [|front rest]; simpl in *.
  - split; [f_equal; lia|].
    rewrite !bool_decide_eq_false_2 by (try lia; naive_solver).
    split; [done|]. split; [|done]. by intros [w Hw].
  - split; [f_equal; lia|].
    rewrite !bool_decide_eq_true_2 by (try lia; done).
    split; [done|]. split; [done|]. eauto.
Qed.

Lemma capacity_queries_agree_witness :
  let options :=
    WorkerPoolOptions.mk (number.Int 2) (number.Int 0) VUndefined None in
  let p0 :=
    WorkerPool.mk (number.Int 2) None
      [WorkerProxy.mk 1 None; WorkerProxy.mk 2 None] ∅ VUndefined None in
  let p := WorkerPool.run [WorkerPool.GetWorker (Some "a") Complete] p0 in
  WorkerPool.countAvailableWorkers p
  = number.Int (Z.of_nat (length (WorkerPool.availableWorkers p)))
  ∧ WorkerPool.hasAvailableWorker p
    = bool_decide (WorkerPool.availableWorkers p ≠ [])
  ∧ ((∃ w, (WorkerPool.getWorker (Some "b") Complete p).1.1
           = Return (Some w))
     ↔ WorkerPool.hasAvailableWorker p = true).
Proof.
  intros options p0.
  apply (capacity_queries_agree 4 options (λ _, Complete) 1 p0 3
           [ProxySetup 1; ProxySetup 2]
           [WorkerPool.GetWorker (Some "a") Complete] (Some "b"));
    reflexivity.
Defined.

(** X3: whatever state the pool is in, also one in which a proxy sits in
    both collections, no sequence of calls makes the idle list longer
    than the ceiling once it is within it, and the ceiling itself is
    never changed. *)
Theorem idle_list_bounded (n : Z) (this : WorkerPool.t)
    (ops : list WorkerPool.Op) :
  WorkerPool.workerMaxCount this = number.Int n →
  Z.of_nat (length (WorkerPool.availableWorkers this)) ≤ n →
  WorkerPool.workerMaxCount (WorkerPool.run ops this) = number.Int n
  ∧ Z.of_nat (length (WorkerPool.availableWorkers (WorkerPool.run ops this)))
    ≤ n.
Proof.
  revert this. induction ops as [|op ops IH]; intros this Hmax Hlen; simpl.
  - done.
  - destruct (step_bounded n this op Hmax Hlen). by apply IH.
Qed.

Lemma idle_list_bounded_witness :
  let shared := WorkerProxy.mk 1 (Some "a") in
  let this :=
    WorkerPool.mk (number.Int 2) None [shared; WorkerProxy.mk 2 None]
      {[ 1 := shared ]} VUndefined None in
  let ops := [WorkerPool.ReleaseWorker 1 VNull Complete] in
  WorkerPool.workerMaxCount (WorkerPool.run ops this) = number.Int 2
  ∧ Z.of_nat (length (WorkerPool.availableWorkers (WorkerPool.run ops this)))
    ≤ 2.
Proof.
  intros shared this ops.
  apply (idle_list_bounded 2 this ops); [reflexivity|simpl; lia].
Defined.

(** ** The pool: failing handshakes and notifications *)

(** X4: in a pool reached from a completed [setup] that created as many
    proxies as its ceiling says, with an idle proxy at hand: when the
    load request of [getWorker] fails, the call throws the
    data of the failure, yet the proxy has already left the idle list and
    sits in the busy map under its id; nothing gives it back but a
    [releaseWorker] with that id, which queues it at the end. *)
Theorem getWorker_load_failure
    cpus options replies next p0 next' events ops
    pointer failure front rest data :
  WorkerPool.setup cpus options replies WorkerPool.new next
  = (Return (), p0, next', events) →
  WorkerPool.workerMaxCount p0
  = number.Int (Z.of_nat (length (WorkerPool.availableWorkers p0))) →
  let p := WorkerPool.run ops p0 in
  WorkerPool.availableWorkers p = front :: rest →
  let kept := WorkerProxy.mk (WorkerProxy.id front) pointer in
  let p1 := (WorkerPool.getWorker pointer (Failure failure) p).1.2 in
  WorkerPool.getWorker pointer (Failure failure) p
  = (Throw failure, p1, [ProxyLoad (WorkerProxy.id front) pointer])
  ∧ WorkerPool.availableWorkers p1 = rest
  ∧ WorkerPool.activeWorkersByPid p1 !! WorkerProxy.id front = Some kept
  ∧ (WorkerProxy.id front ∉ WorkerPool.idleIds p1)
  ∧ WorkerPool.availableWorkers
      (WorkerPool.releaseWorker (WorkerProxy.id front) data Complete p1).1.2
    = rest ++ [kept].
Proof.
  intros Hsetup Hmax p Hav kept p1.
  destruct (reached_full _ _ _ _ _ _ _ ops Hsetup Hmax)
    as (n & [Hceil Hcount Hnodup _ _] & Hfull).
  fold p in Hceil, Hcount, Hnodup, Hfull.
  unfold WorkerPool.workerCount, WorkerPool.idleIds in *.
  rewrite Hav in *. simpl in *.
  assert (Hget : WorkerPool.getWorker pointer (Failure failure) p
    = (Throw failure,
       WorkerPool.mk (WorkerPool.workerMaxCount p)
         (WorkerPool.workerLoaderPath p) rest
         (<[WorkerProxy.id front := kept]> (WorkerPool.activeWorkersByPid p))
         (WorkerPool.sharedData p) (WorkerPool.workerReleaseHandler p),
       [ProxyLoad (WorkerProxy.id front) pointer])).
  { unfold WorkerPool.getWorker. rewrite Hceil, Hav. simpl.
    rewrite bool_decide_eq_true_2 by lia. done. }
  subst p1. rewrite Hget. simpl.
  split; [done|]. split; [done|]. split; [apply lookup_insert_eq|].
  split; [by apply NoDup_cons in Hnodup as [? _]|].
  unfold WorkerPool.releaseWorker. simpl. rewrite lookup_insert_eq. simpl.
  rewrite Hceil. simpl. rewrite bool_decide_eq_true_2 by lia.
  by destruct (WorkerPool.workerReleaseHandler p).
Qed.

Lemma getWorker_load_failure_witness :
  let options :=
    WorkerPoolOptions.mk (number.Int 2) (number.Int 0) VUndefined None in
  let p0 :=
    WorkerPool.mk (number.Int 2) None
      [WorkerProxy.mk 1 None; WorkerProxy.mk 2 None] ∅ VUndefined None in
  let kept := WorkerProxy.mk 1 (Some "a") in
  let p1 :=
    (WorkerPool.getWorker (Some "a") (Failure (VString "no file")) p0).1.2 in
  WorkerPool.getWorker (Some "a") (Failure (VString "no file")) p0
  = (Throw (VString "no file"), p1, [ProxyLoad 1 (Some "a")])
  ∧ WorkerPool.availableWorkers p1 = [WorkerProxy.mk 2 None]
  ∧ WorkerPool.activeWorkersByPid p1 !! 1 = Some kept
  ∧ (1 ∉ WorkerPool.idleIds p1)
  ∧ WorkerPool.availableWorkers
      (WorkerPool.releaseWorker 1 VNull Complete p1).1.2
    = [WorkerProxy.mk 2 None] ++ [kept].
Proof.
  intros options p0 kept p1.
  apply (getWorker_load_failure 4 options (λ _, Complete) 1 p0 3
           [ProxySetup 1; ProxySetup 2] [] (Some "a") (VString "no file")
           (WorkerProxy.mk 1 None) [WorkerProxy.mk 2 None] VNull);
    reflexivity.
Defined.

(** X5: [releaseWorker] calls the release handler exactly when the id is
    busy, the dispose request completes and a handler is registered; it
    then calls it once, after the dispose request, with the id and data it
    was given, and completes as the handler does. In every other case the
    handler is not called, and unless the dispose request completed the
    pool is left as it was. *)
Theorem release_notification
    (id : Z) (data : JsValue) (reply : Reply) (this : WorkerPool.t) :
  let result := WorkerPool.releaseWorker id data reply this in
  let notified :=
    is_Some (WorkerPool.activeWorkersByPid this !! id)
    ∧ reply = Complete
    ∧ is_Some (WorkerPool.workerReleaseHandler this) in
  (∀ i d, ReleaseHandlerCalled i d ∈ result.2 ↔ i = id ∧ d = data ∧ notified)
  ∧ (∀ worker handler,
       WorkerPool.activeWorkersByPid this !! id = Some worker →
       reply = Complete →
       WorkerPool.workerReleaseHandler this = Some handler →
       result.1.1 = handler id data
       ∧ result.2
         = [ProxyDispose (WorkerProxy.id worker);
            ReleaseHandlerCalled id data])
  ∧ (reply ≠ Complete → result.1.2 = this).
Proof.
  intros result notified. subst result notified.
  unfold WorkerPool.releaseWorker.
  destruct (WorkerPool.activeWorkersByPid this !! id) as [worker|] eqn:Hid.
  - destruct reply; simpl.
    + destruct (WorkerPool.workerReleaseHandler this) as [handler|] eqn:Hh;
        simpl.
      * split; [|split; [|done]].
        -- intros i d. rewrite !elem_of_cons, elem_of_nil. split.
           ++ intros [?|[[= -> ->]|[]]]; [done|]. eauto 10.
           ++ intros (-> & -> & _). auto.
        -- intros ? ? [= <-] _ [= <-]. done.
      * split; [|split; [|done]].
        -- intros i d. rewrite !elem_of_cons, elem_of_nil. split.
           ++ intros [?|[]]. done.
           ++ intros (_ & _ & _ & _ & [? ?]). done.
        -- intros ? ? _ _ ?. done.
    + split; [|split; [|done]].
      * intros i d. rewrite !elem_of_cons, elem_of_nil. split.
        -- intros [?|[]]. done.
        -- intros (_ & _ & _ & ? & _). done.
      * intros ? ? _ ?. done.
    + split; [|split; [|done]].
      * intros i d. rewrite !elem_of_cons, elem_of_nil. split.
        -- intros [?|[]]. done.
        -- intros (_ & _ & _ & ? & _). done.
      * intros ? ? _ ?. done.
  - simpl. split; [|split; [|done]].
    + intros i d. rewrite !elem_of_cons, elem_of_nil. split.
      * intros [?|[]]. done.
      * intros (_ & _ & [? ?] & _). done.
    + intros ? ? ?. done.
Qed.

Lemma release_notification_witness :
  let handler : WorkerReleaseHandler := λ _ _, Throw (VString "handler") in
  let worker := WorkerProxy.mk 1 (Some "a") in
  let this :=
    WorkerPool.mk (number.Int 2) None [WorkerProxy.mk 2 None]
      {[ 1 := worker ]} VUndefined (Some handler) in
  let result := WorkerPool.releaseWorker 1 (VString "d") Complete this in
  result.1.1 = Throw (VString "handler")
  ∧ result.2 = [ProxyDispose 1; ReleaseHandlerCalled 1 (VString "d")].
Proof.
  intros handler worker this.
  destruct (release_notification 1 (VString "d") Complete this)
    as (_ & Hcalled & _).
  apply (Hcalled worker handler); reflexivity.
Defined.

(** A call other than [getWorker] makes no id busy. *)
Lemma step_keeps_unknown (id : Z) (this : WorkerPool.t) (op : WorkerPool.Op) :
  isGetWorker op = false →
  WorkerPool.activeWorkersByPid this !! id = None →
  WorkerPool.activeWorkersByPid (WorkerPool.step this op) !! id = None.
Proof.
  intros Hop Hid. destruct op as [pointer reply|id' data reply|handler];
    [done| |done].
  simpl. unfold WorkerPool.releaseWorker.
  destruct (WorkerPool.activeWorkersByPid this !! id') as [worker|];
    [|done].
  destruct reply; simpl; [|done|done].
  assert (Hdeleted :
    delete id' (WorkerPool.activeWorkersByPid this) !! id = None).
  { destruct (decide (id' = id)) as [->|Hne].
    - apply lookup_delete_eq.
    - by rewrite lookup_delete_ne. }
  by destruct (WorkerPool.workerReleaseHandler this).
Qed.

Lemma run_keeps_unknown (id : Z) (ops : list WorkerPool.Op)
    (this : WorkerPool.t) :
  forallb (λ op, negb (isGetWorker op)) ops = true →
  WorkerPool.activeWorkersByPid this !! id = None →
  WorkerPool.activeWorkersByPid (WorkerPool.run ops this) !! id = None.
Proof.
  revert this. induction ops as [|op ops IH]; intros this Hops Hid; [done|].
  simpl in Hops. apply andb_true_iff in Hops as [Hop Hops].
  apply (IH _ Hops). apply step_keeps_unknown; [|done].
  by destruct (isGetWorker op).
Qed.

(** X6: releasing the same id a second time, after a release whose
    dispose request completed, only logs that the id is unknown, with the
    pool unchanged, no dispose request sent and the handler not called
    again, provided that [getWorker] was not called in between. The
    calls in between are those of anybody, the release handler of the
    first call included: it runs when the pool is already updated, so
    that what it calls on the pool comes after the release. When a
    [getWorker] in between hands the proxy out again, as in a pool whose
    other proxies are all busy, the second release disposes it again and
    calls the handler again. *)
Theorem release_twice
    (id : Z) (data data' : JsValue) (reply' : Reply) (this : WorkerPool.t)
    (between : list WorkerPool.Op) :
  let released := (WorkerPool.releaseWorker id data Complete this).1.2 in
  let later := WorkerPool.run between released in
  (forallb (λ op, negb (isGetWorker op)) between = true →
   WorkerPool.releaseWorker id data' reply' later
   = (Return (), later, [ConsoleLog (WorkerPool.notFoundLine id)]))
  ∧ (∀ n recorded pointer,
       WorkerPool.activeWorkersByPid this !! id
       = Some (WorkerProxy.mk id recorded) →
       WorkerPool.availableWorkers this = [] →
       WorkerPool.workerMaxCount this = number.Int n →
       Z.of_nat (size (WorkerPool.activeWorkersByPid this)) ≤ n →
       let again :=
         WorkerPool.run [WorkerPool.GetWorker pointer Complete] released in
       WorkerPool.activeWorkersByPid again !! id
       = Some (WorkerProxy.mk id pointer)
       ∧ (WorkerPool.releaseWorker id data' Complete again).2
         = ProxyDispose id
           :: (if WorkerPool.workerReleaseHandler this is Some _
               then [ReleaseHandlerCalled id data'] else [])).
Proof.
  intros released later.
  assert (Hgone : WorkerPool.activeWorkersByPid released !! id = None).
  { subst released. unfold WorkerPool.releaseWorker.
    destruct (WorkerPool.activeWorkersByPid this !! id) as [worker|] eqn:Hid;
      [|done].
    simpl.
    destruct (WorkerPool.workerReleaseHandler this); simpl;
      apply lookup_delete_eq. }
  split.
  - intros Hbetween.
    pose proof (run_keeps_unknown id between released Hbetween Hgone)
      as Hlater.
    fold later in Hlater.
    unfold WorkerPool.releaseWorker at 1. by rewrite Hlater.
  - intros n recorded pointer Hbusy Hidle Hmax Hsize again.
    assert (Hpositive : (0 < size (WorkerPool.activeWorkersByPid this))%nat).
    { destruct (size (WorkerPool.activeWorkersByPid this)) eqn:Hzero;
        [|lia].
      apply map_size_empty_inv in Hzero. by rewrite Hzero in Hbusy. }
    assert (Hreleased : released
      = WorkerPool.mk (number.Int n) (WorkerPool.workerLoaderPath this)
          [WorkerProxy.mk id recorded]
          (delete id (WorkerPool.activeWorkersByPid this))
          (WorkerPool.sharedData this)
          (WorkerPool.workerReleaseHandler this)).
    { subst released. unfold WorkerPool.releaseWorker.
      rewrite Hbusy, Hidle, Hmax. simpl.
      rewrite bool_decide_eq_true_2 by lia.
      by destruct (WorkerPool.workerReleaseHandler this). }
    assert (Hagain : again
      = WorkerPool.mk (number.Int n) (WorkerPool.workerLoaderPath this) []
          (<[id := WorkerProxy.mk id pointer]>
             (delete id (WorkerPool.activeWorkersByPid this)))
          (WorkerPool.sharedData this)
          (WorkerPool.workerReleaseHandler this)).
    { subst again. rewrite Hreleased. simpl. unfold WorkerPool.getWorker.
      simpl. rewrite bool_decide_eq_true_2; [done|].
      rewrite map_size_delete_Some by by rewrite Hbusy. lia. }
    rewrite Hagain. simpl. split; [apply lookup_insert_eq|].
    unfold WorkerPool.releaseWorker. simpl. rewrite lookup_insert_eq. simpl.
    by destruct (WorkerPool.workerReleaseHandler this).
Qed.

Lemma release_twice_witness :
  let handler : WorkerReleaseHandler := λ _ _, Return () in
  let this :=
    WorkerPool.mk (number.Int 2) None []
      {[ 1 := WorkerProxy.mk 1 (Some "a"); 2 := WorkerProxy.mk 2 (Some "b") ]}
      VUndefined (Some handler) in
  let released := (WorkerPool.releaseWorker 1 VNull Complete this).1.2 in
  let later :=
    WorkerPool.run [WorkerPool.ReleaseWorker 2 VNull Complete] released in
  let again :=
    WorkerPool.run [WorkerPool.GetWorker (Some "c") Complete] released in
  WorkerPool.releaseWorker 1 VNull Complete later
  = (Return (), later,
     [ConsoleLog "No worker with the specified ID #1 was found"])
  ∧ (WorkerPool.releaseWorker 1 VNull Complete again).2
    = [ProxyDispose 1; ReleaseHandlerCalled 1 VNull].
Proof.
  intros handler this released later again. split.
  - destruct (release_twice 1 VNull VNull Complete this
                [WorkerPool.ReleaseWorker 2 VNull Complete]) as [Hlogs _].
    apply Hlogs. reflexivity.
  - destruct (release_twice 1 VNull VNull Complete this []) as [_ Hagain].
    apply (Hagain 2 (Some "a") (Some "c")); [reflexivity..|done].
Defined.

(** ** The pool: how [setup] ends *)

Section SetupOutcome.

Import WorkerPool.

(** The loop of [setup] returns exactly when each of its threads
    completes its setup handshake. *)
Lemma createWorkers_Return_iff n replies this next :
  (createWorkers n replies this next).1.1.1 = Return ()
  ↔ ∀ i, (i < n)%nat → replies (next + Z.of_nat i) = Complete.
Proof.
  revert this next. induction n as [|n IH]; intros this next; simpl.
  - split; [lia|done].
  - destruct (replies next) eqn:Hreply; simpl.
    + match goal with
      | |- context [createWorkers n replies ?q ?k] =>
          specialize (IH q k);
          destruct (createWorkers n replies q k) as [[[r q'] k'] ev]
      end.
      simpl in *. rewrite IH. split.
      * intros Hrest [|i] Hi.
        -- by rewrite Z.add_0_r.
        -- replace (next + Z.of_nat (S i)) with (next + 1 + Z.of_nat i)
             by lia.
           apply Hrest. lia.
      * intros Hall i Hi.
        replace (next + 1 + Z.of_nat i) with (next + Z.of_nat (S i)) by lia.
        apply Hall. lia.
    + split; [done|]. intros Hall.
      specialize (Hall O). rewrite Z.add_0_r, Hreply in Hall.
      discriminate Hall. lia.
    + split; [done|]. intros Hall.
      specialize (Hall O). rewrite Z.add_0_r, Hreply in Hall.
      discriminate Hall. lia.
Qed.

(** The loop of [setup] stops at the first thread whose handshake does
    not complete: the proxies made before it are queued, its own is not,
    and no further thread is started. *)
Lemma createWorkers_stops n replies this next k :
  (k < n)%nat →
  (∀ i, (i < k)%nat → replies (next + Z.of_nat i) = Complete) →
  replies (next + Z.of_nat k) ≠ Complete →
  createWorkers n replies this next
  = (match replies (next + Z.of_nat k) with
     | Failure data => Throw data
     | _ => Pending
     end,
     mk (workerMaxCount this) (workerLoaderPath this)
        (availableWorkers this ++ created k next)
        (activeWorkersByPid this) (sharedData this)
        (workerReleaseHandler this),
     next + Z.of_nat k + 1,
     setupRequests (S k) next).
Proof.
  revert this next k. induction n as [|n IH]; intros this next k Hk Hdone Hnot;
    [lia|].
  simpl. destruct k as [|k].
  - rewrite Z.add_0_r in *. rewrite app_nil_r.
    destruct (replies next); [done| |]; simpl; destruct this; done.
  - pose proof (Hdone O ltac:(lia)) as Hfirst.
    rewrite Z.add_0_r in Hfirst. rewrite Hfirst. simpl.
    erewrite (IH _ (next + 1) k); [| lia | |].
    + replace (next + 1 + Z.of_nat k) with (next + Z.of_nat (S k)) by lia.
      simpl. rewrite <- app_assoc. done.
    + intros i Hi.
      replace (next + 1 + Z.of_nat i) with (next + Z.of_nat (S i)) by lia.
      apply Hdone. lia.
    + by replace (next + 1 + Z.of_nat k) with (next + Z.of_nat (S k)) by lia.
Qed.

End SetupOutcome.

(** X7: [setup] returns exactly when every thread it starts, as many as
    the ceiling says, answers its setup request with a completion. *)
Theorem setup_returns_iff
    (cpus : Z) (options : WorkerPoolOptions.t) (replies : Z → Reply)
    (next : Z) :
  let result := WorkerPool.setup cpus options replies WorkerPool.new next in
  result.1.1.1 = Return ()
  ↔ ∀ i,
      (i < number.iterations (WorkerPool.workerMaxCount result.1.1.2))%nat →
      replies (next + Z.of_nat i) = Complete.
Proof.
  intros result.
  pose proof (setup_workerMaxCount cpus options replies WorkerPool.new next)
    as Hmax.
  simpl in Hmax. fold result in Hmax. rewrite Hmax.
  subst result. unfold WorkerPool.setup. simpl.
  apply createWorkers_Return_iff.
Qed.

(** X8: when the first thread that does not complete its setup handshake
    answers with a failure, [setup] throws the data of that failure; the
    pool then holds the proxies made before as idle, the failing proxy is
    in neither collection, and no thread after it was started. *)
Theorem setup_aborts_at_first_failure
    (cpus : Z) (options : WorkerPoolOptions.t) (replies : Z → Reply)
    (next : Z) (k : nat) (failure : JsValue) :
  let result := WorkerPool.setup cpus options replies WorkerPool.new next in
  (k < number.iterations (WorkerPool.workerMaxCount result.1.1.2))%nat →
  (∀ i, (i < k)%nat → replies (next + Z.of_nat i) = Complete) →
  replies (next + Z.of_nat k) = Failure failure →
  result.1.1.1 = Throw failure
  ∧ WorkerPool.availableWorkers result.1.1.2 = WorkerPool.created k next
  ∧ WorkerPool.activeWorkersByPid result.1.1.2 = ∅
  ∧ result.1.2 = next + Z.of_nat k + 1
  ∧ result.2 = setupRequests (S k) next.
Proof.
  intros result.
  pose proof (setup_workerMaxCount cpus options replies WorkerPool.new next)
    as Hmax.
  simpl in Hmax. fold result in Hmax. rewrite Hmax.
  intros Hk Hdone Hfail.
  subst result. unfold WorkerPool.setup. simpl.
  erewrite createWorkers_stops; [|exact Hk|exact Hdone|by rewrite Hfail].
  rewrite Hfail. done.
Qed.

Lemma setup_aborts_at_first_failure_witness :
  let options :=
    WorkerPoolOptions.mk (number.Int 3) (number.Int 0) VUndefined None in
  let replies : Z → Reply :=
    λ threadId, if bool_decide (threadId = 6) then Failure (VString "boom")
                else Complete in
  let result := WorkerPool.setup 4 options replies WorkerPool.new 5 in
  result.1.1.1 = Throw (VString "boom")
  ∧ WorkerPool.availableWorkers result.1.1.2 = [WorkerProxy.mk 5 None]
  ∧ WorkerPool.activeWorkersByPid result.1.1.2 = ∅
  ∧ result.1.2 = 7
  ∧ result.2 = [ProxySetup 5; ProxySetup 6].
Proof.
  intros options replies.
  apply (setup_aborts_at_first_failure 4 options replies 5 1 (VString "boom")).
  - simpl. lia.
  - intros [|i] Hi; [reflexivity|lia].
  - reflexivity.
Defined.

Lemma setup_returns_iff_witness :
  let options :=
    WorkerPoolOptions.mk (number.Int 2) (number.Int 0) VUndefined None in
  (WorkerPool.setup 4 options (λ _, Complete) WorkerPool.new 1).1.1.1
  = Return ().
Proof.
  intros options.
  apply (setup_returns_iff 4 options (λ _, Complete) 1).
  intros i _. reflexivity.
Defined.

(** ** The proxy and its listeners *)

Section Listeners.

Import ProxyChannel.

Lemma emitMessage_no_listeners content this :
  listeners this = [] → emitMessage content this = this.
Proof. intros H. unfold emitMessage. by rewrite H. Qed.

Lemma messages_no_listeners contents this :
  listeners this = [] → steps (Message <$> contents) this = this.
Proof.
  intros H. induction contents as [|c cs IH]; simpl; [done|].
  by rewrite emitMessage_no_listeners.
Qed.

(** A pending handshake, alone on the thread, meets a run of messages. *)
Lemma pending_handshake_messages h promise contents this :
  listeners this = [HandshakeListener h promise] →
  promises this !! promise = Some Unsettled →
  let after := steps (Message <$> contents) this in
  promises after !! promise = Some (firstVerdict h contents)
  ∧ listeners after
    = (if firstVerdict h contents is Unsettled
       then [HandshakeListener h promise] else [])
  ∧ length (promises after) = length (promises this)
  ∧ (∀ other, other ≠ promise →
              promises after !! other = promises this !! other)
  ∧ proxy after = proxy this
  ∧ sent after = sent this
  ∧ invoked after = invoked this.
Proof.
  revert this. induction contents as [|c cs IH]; intros this Hls Hp; simpl.
  - rewrite Hls. done.
  - unfold emitMessage. rewrite Hls. simpl.
    destruct (verdict h c) as [outcome|] eqn:Hverdict.
    + unfold settle. simpl. rewrite Hp.
      rewrite messages_no_listeners by done. simpl.
      assert (Hlt : (promise < length (promises this))%nat)
        by by eapply lookup_lt_Some.
      split; [by apply list_lookup_insert_eq|].
      split.
      { unfold verdict in Hverdict.
        destruct (_ && _); [by injection Hverdict as <-|].
        destruct (_ && _); [by injection Hverdict as <-|done]. }
      split; [by rewrite length_insert|].
      split; [|done].
      intros other Hne. by apply list_lookup_insert_ne.
    + by apply IH.
Qed.

Lemma handshake_state h request this :
  let started := (handshake h request this).2 in
  (handshake h request this).1 = length (promises this)
  ∧ listeners started = [HandshakeListener h (length (promises this))]
  ∧ promises started = promises this ++ [Unsettled]
  ∧ proxy started = proxy this
  ∧ sent started = sent this ++ [WorkerMessage.toJson request]
  ∧ invoked started = invoked this.
Proof. done. Qed.

End Listeners.

(** X9: a handshake ([setup], [load] or [dispose]) settles at the first
    message that is its own completion or failure, whatever worker id
    that message carries: it resolves on the completion, rejects with the
    data of the message on the failure, and is left pending by every
    other message. Once settled it stays as it is and the thread is left
    without any listener; the promises handed out earlier are not
    touched. *)
Theorem handshake_settles_at_first_verdict
    (h : ProxyChannel.Handshake) (request : WorkerMessage.t)
    (this : ProxyChannel.t) (contents : list WorkerMessageContent.t) :
  let promise := (ProxyChannel.handshake h request this).1 in
  let started := (ProxyChannel.handshake h request this).2 in
  let after := ProxyChannel.steps (ProxyChannel.Message <$> contents) started in
  ProxyChannel.promises after !! promise
  = Some (ProxyChannel.firstVerdict h contents)
  ∧ ProxyChannel.listeners after
    = (if ProxyChannel.firstVerdict h contents is ProxyChannel.Unsettled
       then [ProxyChannel.HandshakeListener h promise] else [])
  ∧ (∀ earlier, (earlier < length (ProxyChannel.promises this))%nat →
       ProxyChannel.promises after !! earlier
       = ProxyChannel.promises this !! earlier)
  ∧ ProxyChannel.invoked after = ProxyChannel.invoked this.
Proof.
  intros promise started after.
  destruct (handshake_state h request this)
    as (Hp & Hls & Hps & _ & _ & Hinv).
  fold promise in Hp. fold started in Hls, Hps, Hinv.
  destruct (pending_handshake_messages h promise contents started)
    as (Hafter & Hls' & _ & Hother & _ & _ & Hinv').
  { by rewrite Hls, Hp. }
  { rewrite Hps, Hp. by rewrite lookup_app_r, Nat.sub_diag. }
  fold after in Hafter, Hls', Hother, Hinv'.
  split; [done|]. split; [done|]. split; [|congruence].
  intros earlier Hlt. rewrite Hother by (rewrite Hp; lia).
  rewrite Hps. by apply lookup_app_l.
Qed.

Section Refinement.

Import ProxyChannel.

Lemma verdict_reply h workerId error reply :
  firstVerdict h (replyMessage h workerId error reply)
  = match reply with
    | Complete => Resolved
    | Failure data => Rejected data
    | Silent => Unsettled
    end.
Proof. destruct reply, h; reflexivity. Qed.

End Refinement.

(** X10: the listeners implement the handshakes the pool relies on.
    Starting [setup], [load] or [dispose] and then delivering the answer
    of the thread (a completion, a failure with its data, or nothing)
    ends an [await] on the promise exactly as the corresponding method of
    the proxy used by the pool ends, and leaves the same proxy: [load] has
    recorded the pointer, also when the answer is a failure. The request
    posted is the serialized setup, load or dispose message. *)
Theorem handshakes_refine_proxy
    (this : ProxyChannel.t) (pointer : option string) (reply : Reply)
    (workerId : Z) (error : option ErrorJson) :
  let delivered h started :=
    ProxyChannel.steps
      (ProxyChannel.Message
         <$> ProxyChannel.replyMessage h workerId error reply) started in
  let outcome (call : nat * ProxyChannel.t) h :=
    (ProxyChannel.awaited
       (default ProxyChannel.Unsettled
          (ProxyChannel.promises (delivered h call.2) !! call.1)),
     ProxyChannel.proxy (delivered h call.2)) in
  let id := WorkerProxy.id (ProxyChannel.proxy this) in
  outcome (ProxyChannel.setup this) ProxyChannel.SetupHandshake
  = (WorkerProxy.setup reply (ProxyChannel.proxy this)).1
  ∧ outcome (ProxyChannel.load pointer this) ProxyChannel.LoadHandshake
    = (WorkerProxy.load pointer reply (ProxyChannel.proxy this)).1
  ∧ outcome (ProxyChannel.dispose this) ProxyChannel.DisposeHandshake
    = (WorkerProxy.dispose reply (ProxyChannel.proxy this)).1
  ∧ ProxyChannel.sent (ProxyChannel.setup this).2
    = ProxyChannel.sent this
      ++ [WorkerMessage.toJson (SystemMessage.setup id)]
  ∧ ProxyChannel.sent (ProxyChannel.load pointer this).2
    = ProxyChannel.sent this
      ++ [WorkerMessage.toJson (SystemMessage.load id pointer)]
  ∧ ProxyChannel.sent (ProxyChannel.dispose this).2
    = ProxyChannel.sent this
      ++ [WorkerMessage.toJson (SystemMessage.dispose id)].
Proof.
  intros delivered outcome id.
  assert (Hgen : ∀ h request st,
    outcome (ProxyChannel.handshake h request st) h
    = (WorkerProxy.settle reply, ProxyChannel.proxy st)).
  { intros h request st. subst outcome delivered. simpl.
    destruct (handshake_state h request st)
      as (Hp & Hls & Hps & Hproxy & _ & _).
    destruct (pending_handshake_messages h
                (ProxyChannel.handshake h request st).1
                (ProxyChannel.replyMessage h workerId error reply)
                (ProxyChannel.handshake h request st).2)
      as (Hafter & _ & _ & _ & Hproxy' & _).
    { by rewrite Hls, Hp. }
    { rewrite Hps, Hp. by rewrite lookup_app_r, Nat.sub_diag. }
    simpl in Hafter, Hproxy'. rewrite Hafter, Hproxy', verdict_reply.
    simpl. by destruct reply. }
  split; [apply Hgen|]. split.
  { unfold ProxyChannel.load. rewrite Hgen. done. }
  split; [apply Hgen|]. done.
Qed.

Section Silence.

Import ProxyChannel.

(** Listeners of handshakes only: a message changes no list of
    invocations, and leaves the listeners as they are or removes all. *)
Lemma receive_handshakes content ls this :
  forallb isHandshakeListener ls = true →
  let after := foldl (receive content) this ls in
  invoked after = invoked this
  ∧ (listeners after = listeners this ∨ listeners after = []).
Proof.
  revert this. induction ls as [|l ls IH]; intros this Hls; simpl.
  - auto.
  - simpl in Hls. apply andb_true_iff in Hls as [Hl Hls].
    destruct l as [h promise| | |]; try done. simpl.
    destruct (verdict h content) as [outcome|].
    + destruct (IH (settle promise outcome (removeAllListeners this)) Hls)
        as [Hinv Hlist].
      assert (Hsettle :
        invoked (settle promise outcome (removeAllListeners this))
        = invoked this
        ∧ listeners (settle promise outcome (removeAllListeners this)) = []).
      { unfold settle. simpl.
        destruct (promises this !! promise) as [[| |]|]; done. }
      destruct Hsettle as [Hinv' Hlist'].
      split; [congruence|]. right. destruct Hlist; congruence.
    + by apply IH.
Qed.

Lemma event_quiet this op :
  forallb isHandshakeListener (listeners this) = true →
  isEvent op = true →
  forallb isHandshakeListener (listeners (step this op)) = true
  ∧ invoked (step this op) = invoked this.
Proof.
  intros Hquiet Hevent. destruct op; try done; simpl.
  - destruct (receive_handshakes content (listeners this) this Hquiet)
      as [Hinv [Hls|Hls]]; unfold emitMessage; rewrite Hls; done.
  - unfold emitError.
    assert (Hfold : ∀ ls st, forallb isHandshakeListener ls = true →
      foldl (λ this listener,
          match listener with
          | ErrorListener handler =>
              mk (proxy this) (listeners this) (promises this) (sent this)
                (invoked this
                 ++ [ErrorHandled handler (WorkerProxy.id (proxy this))
                       error])
          | _ => this
          end) st ls = st).
    { induction ls as [|[] ls IH]; intros st Hls; simpl in *; try done.
      by apply IH. }
    by rewrite Hfold.
  - unfold emitExit.
    assert (Hfold : ∀ ls st, forallb isHandshakeListener ls = true →
      foldl (λ this listener,
          match listener with
          | ExitListener handler =>
              mk (proxy this) (listeners this) (promises this) (sent this)
                (invoked this
                 ++ [ExitHandled handler (WorkerProxy.id (proxy this)) code])
          | _ => this
          end) st ls = st).
    { induction ls as [|[] ls IH]; intros st Hls; simpl in *; try done.
      by apply IH. }
    by rewrite Hfold.
Qed.

Lemma events_quiet ops this :
  forallb isHandshakeListener (listeners this) = true →
  forallb isEvent ops = true →
  invoked (steps ops this) = invoked this.
Proof.
  revert this. induction ops as [|op ops IH]; intros this Hquiet Hops; simpl.
  - done.
  - simpl in Hops. apply andb_true_iff in Hops as [Hop Hops].
    destruct (event_quiet this op Hquiet Hop) as [Hquiet' Hinv].
    rewrite IH by done. done.
Qed.

End Silence.

(** X11: starting a handshake unsubscribes everybody. Whatever handlers
    were registered with [onMessage], [onError] and [onExit] before a
    [setup], [load] or [dispose], none of them is called for any message,
    error or exit of the thread that arrives afterwards, during the
    handshake or after it has settled, until a handler is registered
    anew. *)
Theorem handshake_unsubscribes_handlers
    (this : ProxyChannel.t) (call : ProxyChannel.Op)
    (events : list ProxyChannel.Op) :
  ProxyChannel.isHandshake call = true →
  forallb ProxyChannel.isEvent events = true →
  ProxyChannel.invoked
    (ProxyChannel.steps events (ProxyChannel.step this call))
  = ProxyChannel.invoked this.
Proof.
  intros Hcall Hevents.
  rewrite events_quiet; [|by destruct call|done].
  by destruct call.
Qed.

Lemma handshake_unsubscribes_handlers_witness :
  let this :=
    ProxyChannel.steps
      [ProxyChannel.OnMessage 1; ProxyChannel.OnError 2;
       ProxyChannel.OnExit 3] (ProxyChannel.new 7) in
  let taskResolved :=
    WorkerMessage.toJson (WorkerMessage.taskResolved 7 (VString "done")) in
  ProxyChannel.invoked
    (ProxyChannel.steps [ProxyChannel.Message taskResolved] this)
  = [ProxyChannel.MessageHandled 1 (WorkerMessage.create taskResolved)]
  ∧ ProxyChannel.invoked
      (ProxyChannel.steps
         [ProxyChannel.Message
            (WorkerMessage.toJson (SystemMessage.disposeComplete 7));
          ProxyChannel.Message taskResolved;
          ProxyChannel.ErrorEvent (VString "crash");
          ProxyChannel.ExitEvent 1]
         (ProxyChannel.step this ProxyChannel.Dispose))
    = [].
Proof.
  intros this taskResolved. split; [reflexivity|].
  apply (handshake_unsubscribes_handlers this ProxyChannel.Dispose);
    reflexivity.
Defined.

Section Orphan.

Import ProxyChannel.





End Orphan.



Section Subscription.

Import ProxyChannel.

Lemma subscriber_messages handler contents this :
  listeners this = [MessageListener handler] →
  let after := steps (Message <$> contents) this in
  listeners after = [MessageListener handler]
  ∧ promises after = promises this
  ∧ invoked after
    = invoked this
      ++ (MessageHandled handler ∘ WorkerMessage.create
          <$> filter (λ c, isSystem c = false) contents).
Proof.
  revert this. induction contents as [|c cs IH]; intros this Hls; simpl.
  - by rewrite app_nil_r.
  - unfold emitMessage. rewrite Hls. simpl. rewrite filter_cons.
    destruct (isSystem c) eqn:Hsys; simpl.
    + by apply IH.
    + match goal with
      | |- context [steps _ ?st] => destruct (IH st Hls) as (Hl & Hp & Hi)
      end.
      split; [exact Hl|]. split; [exact Hp|].
      etrans; [exact Hi|]. simpl. by rewrite <- app_assoc.
Qed.

End Subscription.

(** X13: a handler registered with [onMessage] on a proxy without
    listeners is called once for every message whose type is not
    ['system'], in the order of arrival, with the message decoded by
    [WorkerMessage.create]; system messages never reach it, and the
    subscription stays in place. *)
Theorem subscriber_gets_task_messages
    (handler : nat) (this : ProxyChannel.t)
    (contents : list WorkerMessageContent.t) :
  ProxyChannel.listeners this = [] →
  let after :=
    ProxyChannel.steps (ProxyChannel.Message <$> contents)
      (ProxyChannel.onMessage handler this) in
  ProxyChannel.invoked after
  = ProxyChannel.invoked this
    ++ (ProxyChannel.MessageHandled handler ∘ WorkerMessage.create
        <$> filter (λ c, ProxyChannel.isSystem c = false) contents)
  ∧ ProxyChannel.listeners after = [ProxyChannel.MessageListener handler].
Proof.
  intros Hnone after.
  destruct (subscriber_messages handler contents
              (ProxyChannel.onMessage handler this)) as (Hl & _ & Hi).
  { simpl. by rewrite Hnone. }
  done.
Qed.

Lemma subscriber_gets_task_messages_witness :
  let progress :=
    WorkerMessage.toJson (WorkerMessage.taskProgress 7 (VNumber 1)) in
  let rejected :=
    WorkerMessage.toJson
      (WorkerMessage.taskRejected 7 (Some (newError "no" "at run"))) in
  let contents :=
    [progress; WorkerMessage.toJson (SystemMessage.loadComplete 7);
     rejected] in
  ProxyChannel.listeners (ProxyChannel.new 7) = []
  ∧ ProxyChannel.invoked
      (ProxyChannel.steps (ProxyChannel.Message <$> contents)
         (ProxyChannel.onMessage 1 (ProxyChannel.new 7)))
    = [ProxyChannel.MessageHandled 1 (WorkerMessage.create progress);
       ProxyChannel.MessageHandled 1 (WorkerMessage.create rejected)].
Proof.
  intros progress rejected contents. split; [reflexivity|].
  apply (subscriber_gets_task_messages 1 (ProxyChannel.new 7) contents).
  reflexivity.
Defined.

(** ** The worker unit: what it posts *)

Section Posting.

Import Worker.

(** The records a run of calls adds to the port. *)
Lemma calls_port cs this :
  ∃ added,
    parentPort (calls cs this) = parentPort this ++ added
    ∧ Forall (λ r,
        WorkerMessageContent.workerId r = threadId this
        ∧ is_Some (WorkerMessageContent.error r)
        ∧ (WorkerMessageContent.type r = WorkerMessageType.Error
           ↔ WorkerMessageContent.name r = WorkerMessageName.TaskRejected))
        added
    ∧ length (filter (λ r, WorkerMessageContent.name r
                           = WorkerMessageName.TaskProgress) added)
      = length (filter (λ c, isProgress c = true) cs)
    ∧ length (filter (λ r, WorkerMessageContent.name r
                           = WorkerMessageName.TaskRejected) added)
      = length (filter (λ c, isReject c = true) cs).
Proof.
  induction cs as [|c cs IH] using rev_ind.
  - exists []. simpl. by rewrite app_nil_r.
  - destruct IH as (added & Hport & Hall & Hprogress & Hrejected).
    destruct (calls_state cs this) as [Htid _].
    rewrite calls_snoc, !filter_app, !length_app.
    destruct c as [data|error|data]; simpl.
    + unfold resolve. case_bool_decide; simpl.
      * exists (added ++ [WorkerMessage.toJson
                            (WorkerMessage.taskResolved (threadId this) data)]).
        rewrite Hport, Htid, <- app_assoc, !filter_app, !length_app.
        split; [done|]. split.
        { apply Forall_app. split; [done|]. apply Forall_singleton.
          simpl. split; [done|]. split; [eauto|]. split; done. }
        rewrite Hprogress, Hrejected. split; reflexivity.
      * exists added. split; [done|]. split; [done|].
        split; [rewrite Hprogress|rewrite Hrejected];
          symmetry; apply Nat.add_0_r.
    + exists (added ++ [WorkerMessage.toJson
                          (WorkerMessage.taskRejected (threadId this) error)]).
      rewrite Hport, Htid, <- app_assoc, !filter_app, !length_app.
      split; [done|]. split.
      { apply Forall_app. split; [done|]. apply Forall_singleton.
        simpl. split; [done|]. split; [eauto|]. split; done. }
      rewrite Hprogress, Hrejected. split; reflexivity.
    + exists (added ++ [WorkerMessage.toJson
                          (WorkerMessage.taskProgress (threadId this) data)]).
      rewrite Hport, Htid, <- app_assoc, !filter_app, !length_app.
      split; [done|]. split.
      { apply Forall_app. split; [done|]. apply Forall_singleton.
        simpl. split; [done|]. split; [eauto|]. split; done. }
      rewrite Hprogress, Hrejected. split; [|reflexivity].
      reflexivity.
Qed.

End Posting.

(** X14: a worker only ever appends to the port. Every record it posts
    carries the id of its thread and an error object, and has the type
    ['error'] exactly when its name is ['task_rejected']. Each call of
    [progress] and each call of [reject] posts one record of its kind,
    whatever was called before: progress is never suppressed, not even
    after a reject. *)
Theorem worker_posts
    (threadId : Z) (port : list WorkerMessageContent.t)
    (cs : list Worker.Call) :
  ∃ added,
    Worker.parentPort (Worker.calls cs (Worker.new threadId port))
    = port ++ added
    ∧ Forall (λ r,
        WorkerMessageContent.workerId r = threadId
        ∧ is_Some (WorkerMessageContent.error r)
        ∧ (WorkerMessageContent.type r = WorkerMessageType.Error
           ↔ WorkerMessageContent.name r = WorkerMessageName.TaskRejected))
        added
    ∧ length (filter (λ r, WorkerMessageContent.name r
                           = WorkerMessageName.TaskProgress) added)
      = length (filter (λ c, isProgress c = true) cs)
    ∧ length (filter (λ r, WorkerMessageContent.name r
                           = WorkerMessageName.TaskRejected) added)
      = length (filter (λ c, Worker.isReject c = true) cs).
Proof. apply (calls_port cs (Worker.new threadId port)). Qed.

(** ** The envelope: what normalising an error keeps *)

(** X15: the error object that [toJson] and [create] build always has the
    keys [message], [stack] and [name], with the values a read of these
    properties gives on the original (also when they are inherited or not
    enumerable, [undefined] when absent); it keeps every other own
    enumerable property of the original unchanged, and nothing else: what
    the original had that was not enumerable is gone. *)
Theorem errorJson_keeps (error : ErrorJson) :
  let json := WorkerMessage.errorJson error in
  dom (enumerable json)
  = dom (enumerable error) ∪ {[ "message"; "stack"; "name" ]}
  ∧ (∀ key, key ∈ ({[ "message"; "stack"; "name" ]} : gset string) →
            enumerable json !! key = Some (WorkerMessage.prop error key))
  ∧ (∀ key, key ∉ ({[ "message"; "stack"; "name" ]} : gset string) →
            enumerable json !! key = enumerable error !! key)
  ∧ hidden json = ∅.
Proof.
  intros json. subst json.
  assert (Hnamed : ∀ key,
    key ∈ ({[ "message"; "stack"; "name" ]} : gset string) →
    enumerable (WorkerMessage.errorJson error) !! key
    = Some (WorkerMessage.prop error key)).
  { intros key Hkey. rewrite errorJson_lookup.
    apply elem_of_union in Hkey as [Hkey|Hkey];
      [apply elem_of_union in Hkey as [Hkey|Hkey]|];
      apply elem_of_singleton in Hkey as ->; done. }
  assert (Hother : ∀ key,
    key ∉ ({[ "message"; "stack"; "name" ]} : gset string) →
    enumerable (WorkerMessage.errorJson error) !! key
    = enumerable error !! key).
  { intros key Hkey. rewrite errorJson_lookup.
    repeat case_decide; subst; try done; exfalso; apply Hkey; set_solver. }
  split; [|done].
  apply set_eq. intros key. rewrite elem_of_union, !elem_of_dom.
  destruct (decide (key ∈ ({[ "message"; "stack"; "name" ]} : gset string)))
    as [Hin|Hout].
  - rewrite Hnamed by done. split; [by right|eauto].
  - rewrite Hother by done. split; [by left|]. by intros [?|?].
Qed.

Lemma errorJson_keeps_witness :
  let error :=
    {| enumerable := {[ "code" := VNumber 7 ]};
       hidden := {[ "message" := VString "no" ]} |} in
  enumerable (WorkerMessage.errorJson error) !! "message"
  = Some (VString "no")
  ∧ enumerable (WorkerMessage.errorJson error) !! "code"
    = Some (VNumber 7).
Proof.
  intros error.
  destruct (errorJson_keeps error) as (_ & Hnamed & Hother & _).
  split.
  - apply (Hnamed "message"). set_solver.
  - apply (Hother "code"). set_solver.
Defined.

(** ** The loader: built paths *)

Section Paths.

Lemma string_length_app (s t : string) :
  String.length (s +:+ t) = (String.length s + String.length t)%nat.
Proof. induction s as [|c s IH]; simpl; [done|]. by rewrite IH. Qed.

Lemma string_app_empty (s : string) : s +:+ EmptyString = s.
Proof.
  induction s as [|c s IH]; [done|].
  change (String c (s +:+ EmptyString) = String c s). by f_equal.
Qed.

Lemma substring_whole (s : string) :
  String.substring 0 (String.length s) s = s.
Proof. induction s as [|c s IH]; simpl; [done|]. by rewrite IH. Qed.

Lemma substring_app_suffix (s t : string) :
  String.substring (String.length s) (String.length t) (s +:+ t) = t.
Proof.
  induction s as [|c s IH]; simpl; [apply substring_whole|done].
Qed.

(** A string ends with what was appended to it, and with no other
    suffix of that length. *)
Lemma endsWith_app (s suffix other : string) :
  String.length other = String.length suffix →
  endsWith (s +:+ suffix) other = String.eqb suffix other.
Proof.
  intros Hlen. unfold endsWith.
  rewrite string_length_app, Hlen.
  rewrite bool_decide_eq_true_2 by lia.
  replace (String.length s + String.length suffix - String.length suffix)%nat
    with (String.length s) by lia.
  by rewrite substring_app_suffix.
Qed.

End Paths.

(** X16: a pointer without extension and the same pointer with [.js]
    appended are built into the same path, so that [load] resolves both
    to the same file when that file exists; every path is built either
    under [src], from a name ending in [.ts], or under [build], from a
    name ending in [.js]. *)
Theorem buildPath_extension
    (node : Node) (this : DefaultWorkerLoader.t) (filePath : string)
    (args : option (gmap string JsValue)) (heap : nat) :
  (endsWith filePath ".ts" = false →
   endsWith filePath ".js" = false →
   buildPath node (filePath +:+ ".js") = buildPath node filePath
   ∧ (filePath ≠ EmptyString →
      existsSync node (buildPath node filePath) = true →
      DefaultWorkerLoader.load node this (Some (filePath +:+ ".js")) args heap
      = DefaultWorkerLoader.load node this (Some filePath) args heap))
  ∧ ∃ directory name,
      buildPath node filePath = resolve node [cwd node; directory; name]
      ∧ (directory = "src" ∧ name = filePath ∧ endsWith name ".ts" = true
         ∨ directory = "build" ∧ endsWith name ".js" = true
           ∧ endsWith name ".ts" = false).
Proof.
  split.
  - intros Hts Hjs.
    assert (Hsame : buildPath node (filePath +:+ ".js")
                    = buildPath node filePath).
    { unfold buildPath. rewrite !endsWith_app by done. simpl.
      by rewrite Hts, Hjs, string_app_empty. }
    split; [done|]. intros Hne Hfile.
    assert (Hfalsy : ∀ s, s ≠ EmptyString →
              DefaultWorkerLoader.falsy (Some s) = false).
    { intros s Hs. simpl. by destruct (String.eqb_spec s EmptyString). }
    rewrite !load_Some; [|by apply Hfalsy|apply Hfalsy; by destruct filePath].
    by rewrite Hsame, Hfile.
  - unfold buildPath. destruct (endsWith filePath ".ts") eqn:Hts.
    + exists "src", filePath. split; [done|]. by left.
    + destruct (endsWith filePath ".js") eqn:Hjs.
      * exists "build", (filePath +:+ EmptyString). split; [done|]. right.
        by rewrite string_app_empty.
      * exists "build", (filePath +:+ ".js"). split; [done|]. right.
        by rewrite !endsWith_app.
Qed.

Lemma buildPath_extension_witness :
  let node :=
    {| cwd := "/app"; resolve := String.concat "/";
       existsSync := String.eqb "/app/build/worker.js";
       requireDefault := λ _, Some (Class "FileWorker") |} in
  let this := DefaultWorkerLoader.mk ∅ VUndefined in
  buildPath node ("worker" +:+ ".js") = buildPath node "worker"
  ∧ DefaultWorkerLoader.load node this (Some ("worker" +:+ ".js")) None 0%nat
    = DefaultWorkerLoader.load node this (Some "worker") None 0%nat.
Proof.
  intros node this.
  destruct (buildPath_extension node this "worker" None 0%nat)
    as [Hsame _].
  destruct Hsame as [Hpath Hload]; [reflexivity|reflexivity|].
  split; [exact Hpath|]. apply Hload; [discriminate|reflexivity].
Defined.

(** ** The container *)

(** X17: after any sequence of [bind] calls, [get] gives for a label the
    class of the last call that bound it; for a label never bound it gives
    what the container had before, [undefined] for a new container: it
    does not throw. *)
Theorem container_last_bind_wins
    (label : string) (bs : list (string * WorkerClass))
    (this : WorkerContainer.t) :
  WorkerContainer.get label (WorkerContainer.binds bs this)
  = match last (filter (λ b, b.1 = label) bs) with
    | Some b => Some b.2
    | None => WorkerContainer.get label this
    end
  ∧ WorkerContainer.get label (WorkerContainer.binds bs WorkerContainer.new)
    = snd <$> last (filter (λ b, b.1 = label) bs).
Proof.
  assert (Hgen : ∀ c,
    WorkerContainer.get label (WorkerContainer.binds bs c)
    = match last (filter (λ b, b.1 = label) bs) with
      | Some b => Some b.2
      | None => WorkerContainer.get label c
      end).
  { intros c. induction bs as [|[l w] bs IH] using rev_ind; [done|].
    unfold WorkerContainer.binds in *. rewrite foldl_snoc, filter_app.
    unfold WorkerContainer.get, WorkerContainer.bind in *. simpl.
    rewrite filter_cons, filter_nil. simpl.
    destruct (decide (l = label)) as [->|Hne].
    - rewrite last_snoc. apply lookup_insert_eq.
    - rewrite app_nil_r, lookup_insert_ne by done. apply IH. }
  split; [apply Hgen|].
  rewrite Hgen. unfold WorkerContainer.get. simpl. rewrite lookup_empty.
  by destruct (last _).
Qed.

(** ** The loader utilities *)

Section Utils.

Import LoaderUtils.

Lemma truthy_Some path : path ≠ EmptyString → truthy (Some path) = true.
Proof. intros Hpath. simpl. by destruct (String.eqb_spec path EmptyString). Qed.

(** With an existing file and a module with at least one key,
    [getWorkerLoader] instantiates what [selectClass] picks. *)
Lemma getWorkerLoader_selected disk path dependenciesPath className required :
  path ≠ EmptyString →
  let loaderPath := buildPath (node disk) path in
  existsSync (node disk) loaderPath = true →
  requireModule disk loaderPath = Return (Some required) →
  exported required ≠ [] →
  getWorkerLoader disk (Some path) dependenciesPath className
  = let selected := selectClass loaderPath required className in
    let made := newLoader disk selected.1 dependenciesPath in
    (made.1, selected.2 ++ made.2).
Proof.
  intros Hpath loaderPath Hfile Hmodule Hkeys.
  unfold getWorkerLoader. rewrite (truthy_Some path Hpath). simpl.
  fold loaderPath. unfold requireClass. rewrite Hfile, Hmodule. simpl.
  destruct (exported required) as [|entry entries] eqn:Hexported; [done|].
  destruct (selectClass loaderPath required className)
    as [selected warnings]. simpl.
  by destruct (newLoader disk selected dependenciesPath).
Qed.

Lemma newLoader_unfold disk selected dependenciesPath :
  newLoader disk selected dependenciesPath
  = match selected with
    | Constructor c =>
        (match (construct disk c dependenciesPath).1 with
         | Return _ => Return (CustomLoader c dependenciesPath)
         | Throw e => Throw e
         | Pending => Pending
         end, (construct disk c dependenciesPath).2)
    | _ => (Throw NotAConstructor, [])
    end.
Proof.
  unfold newLoader, new. destruct selected as [|c|]; [done| |done].
  by destruct (construct disk c dependenciesPath) as [[| |] logged].
Qed.

End Utils.

(** X18: the path errors of [getWorkerLoader]. When [testPath] says no
    for a non-empty path, [getWorkerLoader] throws InvalidPathError,
    whose message reads "The given undefined path is invalid:" followed
    by the built path, whatever the module, the classes and the other
    arguments are, and logs nothing. When [testPath] says yes, the call
    can still fail on a path: a module that is falsy or has no key gives
    MissingClassError for the built path, and a default class that runs
    the constructor of [DefaultWorkerLoader] on the dependencies path
    gives InvalidPathError for the built dependencies path when that
    file does not exist. *)
Theorem getWorkerLoader_path_errors
    (disk : LoaderUtils.Disk) (path : string)
    (dependenciesPath className : option string) :
  path ≠ EmptyString →
  let loaderPath := buildPath (LoaderUtils.node disk) path in
  let result :=
    LoaderUtils.getWorkerLoader disk (Some path) dependenciesPath className in
  (LoaderUtils.testPath disk (Some path) = false →
   result
   = (Throw (LoaderUtils.InvalidPathError
               ("The given undefined path is invalid: " +:+ loaderPath)), []))
  ∧ (LoaderUtils.testPath disk (Some path) = true →
     LoaderUtils.requireModule disk loaderPath = Return None
     ∨ (∃ required,
          LoaderUtils.requireModule disk loaderPath = Return (Some required)
          ∧ LoaderUtils.exported required = []) →
     result
     = (Throw (LoaderUtils.MissingClassError
                 (LoaderUtils.missingClassMessage loaderPath)), []))
  ∧ (LoaderUtils.testPath disk (Some path) = true →
     ∀ required c dependencies,
       LoaderUtils.requireModule disk loaderPath = Return (Some required) →
       LoaderUtils.exported required ≠ [] →
       LoaderUtils.read "default" required = LoaderUtils.Constructor c →
       LoaderUtils.construct disk c dependenciesPath
       = LoaderUtils.defaultConstructor disk dependenciesPath →
       dependenciesPath = Some dependencies →
       dependencies ≠ EmptyString →
       existsSync (LoaderUtils.node disk)
         (buildPath (LoaderUtils.node disk) dependencies) = false →
       result
       = (Throw (LoaderUtils.InvalidPathError
                   ("The given undefined path is invalid: "
                    +:+ buildPath (LoaderUtils.node disk) dependencies)),
          [])).
Proof.
  intros Hpath loaderPath result.
  assert (Htest : LoaderUtils.testPath disk (Some path)
                  = existsSync (LoaderUtils.node disk) loaderPath).
  { unfold LoaderUtils.testPath. by rewrite (truthy_Some path Hpath). }
  rewrite Htest. split; [|split].
  - intros Hfile. subst result. unfold LoaderUtils.getWorkerLoader.
    rewrite (truthy_Some path Hpath). simpl. fold loaderPath.
    unfold LoaderUtils.requireClass. by rewrite Hfile.
  - intros Hfile Hmodule. subst result. unfold LoaderUtils.getWorkerLoader.
    rewrite (truthy_Some path Hpath). simpl. fold loaderPath.
    unfold LoaderUtils.requireClass. rewrite Hfile. simpl.
    destruct Hmodule as [-> | (required & -> & Hkeys)]; [done|].
    by rewrite Hkeys.
  - intros Hfile required c dependencies Hmodule Hkeys Hdefault Hextends
      -> Hdependencies Hmissing.
    subst result.
    rewrite (getWorkerLoader_selected disk path (Some dependencies)
               className required Hpath Hfile Hmodule Hkeys).
    fold loaderPath. unfold LoaderUtils.selectClass. rewrite Hdefault.
    simpl. rewrite newLoader_unfold, Hextends.
    unfold LoaderUtils.defaultConstructor, LoaderUtils.newDefaultWorkerLoader.
    rewrite (truthy_Some dependencies Hdependencies). simpl.
    unfold LoaderUtils.getWorkerLoaderDependencies, LoaderUtils.requireClass.
    by rewrite Hmissing.
Qed.

Lemma getWorkerLoader_path_errors_witness :
  let missing :=
    LoaderUtils.InvalidPathError
      "The given undefined path is invalid: /app/build/deps.js" in
  let disk :=
    {| LoaderUtils.node :=
         {| cwd := "/app"; resolve := String.concat "/";
            existsSync := λ file,
              String.eqb file "/app/build/empty.js"
              || String.eqb file "/app/build/loader.js";
            requireDefault := λ _, None |};
       LoaderUtils.requireModule := λ file,
         if String.eqb file "/app/build/loader.js"
         then Return (Some {| LoaderUtils.exported :=
                                [("default",
                                  LoaderUtils.Constructor (Class "Loader"))];
                              LoaderUtils.inherited := λ _,
                                LoaderUtils.Falsy |})
         else Return None;
       LoaderUtils.construct := λ _ dependenciesPath,
         if LoaderUtils.truthy dependenciesPath
         then (Throw missing, []) else (Return (), []) |} in
  LoaderUtils.getWorkerLoader disk (Some "other") None None
  = (Throw (LoaderUtils.InvalidPathError
              "The given undefined path is invalid: /app/build/other.js"),
     [])
  ∧ LoaderUtils.getWorkerLoader disk (Some "empty") None None
    = (Throw (LoaderUtils.MissingClassError
                (LoaderUtils.missingClassMessage "/app/build/empty.js")),
       [])
  ∧ LoaderUtils.testPath disk (Some "loader") = true
  ∧ LoaderUtils.getWorkerLoader disk (Some "loader") (Some "deps") None
    = (Throw missing, []).
Proof.
  intros missing disk. split; [|split; [|split]].
  - destruct (getWorkerLoader_path_errors disk "other" None None)
      as (Hinvalid & _ & _); [discriminate|].
    apply Hinvalid. reflexivity.
  - destruct (getWorkerLoader_path_errors disk "empty" None None)
      as (_ & Hmissing & _); [discriminate|].
    apply Hmissing; [reflexivity|by left].
  - reflexivity.
  - destruct (getWorkerLoader_path_errors disk "loader" (Some "deps") None)
      as (_ & _ & Hdependencies); [discriminate|].
    apply (Hdependencies eq_refl
             {| LoaderUtils.exported :=
                  [("default", LoaderUtils.Constructor (Class "Loader"))];
                LoaderUtils.inherited := λ _, LoaderUtils.Falsy |}
             (Class "Loader") "deps");
      try reflexivity; discriminate.
Defined.

(** X19: which class [getWorkerLoader] instantiates, for an existing file
    whose module has at least one key. A truthy [default] property is
    taken, whatever class name is asked for and whatever else the module
    exports, and no warning is logged. Without it, a class name that is
    given decides alone: the property of that name is read from the
    module object, an inherited one such as [constructor] included, and
    when what is read is not a constructor the call throws, though other
    classes are exported. Without both, the export of the first key is
    taken, and a warning is logged exactly when there are several keys.
    What is taken is instantiated with the dependencies path, and the
    call ends as that constructor ends. *)
Theorem getWorkerLoader_class
    (disk : LoaderUtils.Disk) (path : string)
    (dependenciesPath className : option string)
    (required : LoaderUtils.Required) :
  path ≠ EmptyString →
  let loaderPath := buildPath (LoaderUtils.node disk) path in
  existsSync (LoaderUtils.node disk) loaderPath = true →
  LoaderUtils.requireModule disk loaderPath = Return (Some required) →
  LoaderUtils.exported required ≠ [] →
  let result :=
    LoaderUtils.getWorkerLoader disk (Some path) dependenciesPath className in
  let made (selected : LoaderUtils.Export) :=
    match selected with
    | LoaderUtils.Constructor c =>
        (match (LoaderUtils.construct disk c dependenciesPath).1 with
         | Return _ => Return (LoaderUtils.CustomLoader c dependenciesPath)
         | Throw e => Throw e
         | Pending => Pending
         end, (LoaderUtils.construct disk c dependenciesPath).2)
    | _ => (Throw LoaderUtils.NotAConstructor, [])
    end in
  (LoaderUtils.isTruthy (LoaderUtils.read "default" required) = true →
   result = made (LoaderUtils.read "default" required))
  ∧ (LoaderUtils.read "default" required = LoaderUtils.Falsy →
     ∀ name, className = Some name → name ≠ EmptyString →
             result = made (LoaderUtils.read name required))
  ∧ (LoaderUtils.read "default" required = LoaderUtils.Falsy →
     LoaderUtils.truthy className = false →
     ∀ first e rest, LoaderUtils.exported required = (first, e) :: rest →
       result
       = ((made e).1,
          (if rest is [] then []
           else [LoaderUtils.manyExportsWarning loaderPath first])
          ++ (made e).2)).
Proof.
  intros Hpath loaderPath Hfile Hmodule Hkeys result made.
  assert (Hmade : ∀ selected,
            LoaderUtils.newLoader disk selected dependenciesPath
            = made selected)
    by (intros selected; apply (newLoader_unfold disk selected)).
  subst result.
  rewrite (getWorkerLoader_selected disk path dependenciesPath className
             required Hpath Hfile Hmodule Hkeys).
  fold loaderPath. unfold LoaderUtils.selectClass.
  split; [|split].
  - intros Hdefault. rewrite Hdefault. cbn [fst snd]. rewrite Hmade.
    by destruct (made _).
  - intros Hdefault name -> Hname. rewrite Hdefault.
    cbn [LoaderUtils.isTruthy].
    rewrite (truthy_Some name Hname), andb_false_r.
    cbn [fst snd default]. rewrite Hmade. by destruct (made _).
  - intros Hdefault Hclass first e rest Hexported.
    rewrite Hdefault, Hclass, Hexported. cbn [LoaderUtils.isTruthy].
    assert (Hfirst : LoaderUtils.read first required = e).
    { unfold LoaderUtils.read. rewrite Hexported. simpl.
      by rewrite String.eqb_refl. }
    destruct rest as [|second rest]; simpl; by rewrite Hfirst, Hmade.
Qed.

Lemma getWorkerLoader_class_witness :
  let file := "/app/build/loader.js" in
  let A := LoaderUtils.Constructor (Class "A") in
  let B := LoaderUtils.Constructor (Class "B") in
  let module entries :=
    {| LoaderUtils.exported := entries;
       LoaderUtils.inherited := λ key,
         if String.eqb key "constructor"
         then LoaderUtils.Constructor (Class "Object")
         else LoaderUtils.Falsy |} in
  let disk entries :=
    {| LoaderUtils.node :=
         {| cwd := "/app"; resolve := String.concat "/";
            existsSync := String.eqb file;
            requireDefault := λ _, None |};
       LoaderUtils.requireModule := λ _, Return (Some (module entries));
       LoaderUtils.construct := λ _ _, (Return (), []) |} in
  LoaderUtils.getWorkerLoader (disk [("A", A); ("default", B)])
    (Some "loader") None (Some "A")
  = (Return (LoaderUtils.CustomLoader (Class "B") None), [])
  ∧ LoaderUtils.getWorkerLoader (disk [("A", A); ("B", B)])
      (Some "loader") None (Some "C")
    = (Throw LoaderUtils.NotAConstructor, [])
  ∧ LoaderUtils.getWorkerLoader (disk [("A", A); ("B", B)])
      (Some "loader") None (Some "constructor")
    = (Return (LoaderUtils.CustomLoader (Class "Object") None), [])
  ∧ LoaderUtils.getWorkerLoader (disk [("A", A); ("B", B)])
      (Some "loader") None None
    = (Return (LoaderUtils.CustomLoader (Class "A") None),
       [LoaderUtils.manyExportsWarning file "A"]).
Proof.
  intros file A B module disk. split; [|split; [|split]].
  - destruct (getWorkerLoader_class (disk [("A", A); ("default", B)])
                "loader" None (Some "A") (module [("A", A); ("default", B)]))
      as (Hdefault & _ & _);
      [discriminate|reflexivity|reflexivity|discriminate|].
    apply Hdefault. reflexivity.
  - destruct (getWorkerLoader_class (disk [("A", A); ("B", B)])
                "loader" None (Some "C") (module [("A", A); ("B", B)]))
      as (_ & Hnamed & _);
      [discriminate|reflexivity|reflexivity|discriminate|].
    apply (Hnamed eq_refl "C"); [reflexivity|discriminate].
  - destruct (getWorkerLoader_class (disk [("A", A); ("B", B)])
                "loader" None (Some "constructor")
                (module [("A", A); ("B", B)]))
      as (_ & Hnamed & _);
      [discriminate|reflexivity|reflexivity|discriminate|].
    apply (Hnamed eq_refl "constructor"); [reflexivity|discriminate].
  - destruct (getWorkerLoader_class (disk [("A", A); ("B", B)])
                "loader" None None (module [("A", A); ("B", B)]))
      as (_ & _ & Hfirst);
      [discriminate|reflexivity|reflexivity|discriminate|].
    apply (Hfirst eq_refl eq_refl "A" A [("B", B)]). reflexivity.
Defined.

(** ** The script of the thread *)

Section Script.

Import LoaderScript.

Lemma setupWorkerLoader_posted env path dependenciesPath shared this :
  posted (setupWorkerLoader env path dependenciesPath shared this).2
  = posted this.
Proof.
  unfold setupWorkerLoader.
  by destruct (getWorkerLoader env path dependenciesPath).
Qed.

Lemma loadWorker_posted message pointer this :
  posted (loadWorker message pointer this).2 = posted this.
Proof.
  unfold loadWorker. destruct (workerLoader this) as [loader|]; [|done].
  by destruct (loadOf loader _ _) as [[| |] ?].
Qed.

End Script.

(** One message, handled in a responsive environment by a script whose
    loader, if any, settles. *)
Lemma script_step env message this :
  LoaderScript.responsive env →
  (∀ loader, LoaderScript.workerLoader this = Some loader →
             LoaderScript.settles loader) →
  let result := LoaderScript.messageHandler env message this in
  result.1 ≠ Pending
  ∧ (∀ loader, LoaderScript.workerLoader result.2 = Some loader →
               LoaderScript.settles loader)
  ∧ ∃ answers,
      LoaderScript.posted result.2 = LoaderScript.posted this ++ answers
      ∧ Forall (λ answer,
          LoaderScript.answers (WorkerMessageContent.name message) answer
          = true) answers
      ∧ LoaderScript.postedId <$> answers
        = (if LoaderScript.isRequest message
           then [WorkerMessageContent.workerId message] else []).
Proof.
  intros (Hget & Hsettles & Hrun) Hloader result. subst result.
  unfold LoaderScript.messageHandler, LoaderScript.isRequest.
  destruct (String.eqb_spec (WorkerMessageContent.name message)
              WorkerMessageName.Setup) as [Hsetup|_].
  { rewrite Hsetup. unfold LoaderScript.setupWorkerLoader.
    match goal with
    | |- context [LoaderScript.getWorkerLoader env ?p ?d] =>
        specialize (Hget p d); specialize (Hsettles p d);
        destruct (LoaderScript.getWorkerLoader env p d) as [loader|e|]
    end; [| |done].
    - pose proof (Hsettles loader eq_refl) as Hok.
      pose proof Hok as [Hs Hl].
      specialize (Hs (LoaderScript.sharedData (LoaderScript.workerData env))).
      destruct (LoaderScript.setupOf loader _) as [?|e|]; [| |done]; simpl.
      + split; [done|]. split; [by intros ? [= <-]|].
        eexists [_]. split; [done|]. split; [|done].
        by apply Forall_singleton.
      + split; [done|]. split; [by intros ? [= <-]|].
        eexists [_]. split; [done|]. split; [|done].
        by apply Forall_singleton.
    - simpl. split; [done|]. split; [done|].
      eexists [_]. split; [done|]. split; [|done].
      by apply Forall_singleton. }
  destruct (String.eqb_spec (WorkerMessageContent.name message)
              WorkerMessageName.Load) as [Hload|_].
  { rewrite Hload. unfold LoaderScript.loadWorker.
    destruct (LoaderScript.workerLoader this) as [loader|] eqn:Hl.
    - destruct (Hloader loader eq_refl) as [_ Hnever].
      match goal with
      | |- context [LoaderScript.loadOf loader ?p ?h] =>
          specialize (Hnever p h);
          destruct (LoaderScript.loadOf loader p h) as [[instance|e|] heap']
      end; [| |done]; simpl.
      + split; [done|]. split; [intros ? [= <-]; by apply Hloader|].
        eexists [_]. split; [done|]. split; [|done].
        by apply Forall_singleton.
      + split; [done|]. split; [intros ? [= <-]; by apply Hloader|].
        eexists [_]. split; [done|]. split; [|done].
        by apply Forall_singleton.
    - simpl. split; [done|]. split; [by rewrite Hl|].
      eexists [_]. split; [done|]. split; [|done].
      by apply Forall_singleton. }
  destruct (String.eqb_spec (WorkerMessageContent.name message)
              WorkerMessageName.Dispose) as [Hdispose|_].
  { rewrite Hdispose. simpl. split; [done|]. split; [done|].
    eexists [_]. split; [done|]. split; [|done].
    by apply Forall_singleton. }
  destruct (String.eqb (WorkerMessageContent.name message)
              WorkerMessageName.RunTask).
  - unfold LoaderScript.getWorker.
    destruct (LoaderScript.worker this) as [instance|]; simpl.
    + specialize (Hrun instance (WorkerMessageContent.data message)).
      split; [by destruct (LoaderScript.runOf env _ _)|].
      split; [done|]. exists []. by rewrite app_nil_r.
    + split; [done|]. split; [done|]. exists []. by rewrite app_nil_r.
  - simpl. split; [done|]. split; [done|]. exists []. by rewrite app_nil_r.
Qed.

Lemma script_trace env messages this :
  LoaderScript.responsive env →
  (∀ loader, LoaderScript.workerLoader this = Some loader →
             LoaderScript.settles loader) →
  ∃ answers,
    LoaderScript.posted (LoaderScript.handleAll env messages this)
    = LoaderScript.posted this ++ answers
    ∧ LoaderScript.postedId <$> answers
      = WorkerMessageContent.workerId
        <$> filter (λ m, LoaderScript.isRequest m = true) messages
    ∧ Forall2 (λ answer request,
        LoaderScript.answers (WorkerMessageContent.name request) answer
        = true)
        answers (filter (λ m, LoaderScript.isRequest m = true) messages).
Proof.
  intros Henv. revert this.
  induction messages as [|m ms IH]; intros this Hloader; simpl.
  - exists []. by rewrite app_nil_r.
  - destruct (script_step env m this Henv Hloader)
      as (Hdone & Hloader' & first & Hposted & Hanswers & Hids).
    destruct (LoaderScript.messageHandler env m this) as [done after].
    simpl in *.
    destruct (IH after Hloader') as (rest & Hposted' & Hids' & Hall).
    exists (first ++ rest).
    assert (Hcontinue :
      match done with
      | Pending => after
      | _ => LoaderScript.handleAll env ms after
      end = LoaderScript.handleAll env ms after) by by destruct done.
    rewrite Hcontinue, Hposted', Hposted, <- app_assoc, fmap_app, Hids, Hids'.
    rewrite filter_cons.
    split; [done|].
    destruct (LoaderScript.isRequest m) eqn:Hrequest; simpl in *.
    + destruct first as [|answer [|? ?]]; try done. simpl.
      split; [done|].
      constructor; [exact (Forall_inv Hanswers)|done].
    + by destruct first.
Qed.

(** X20: in a thread where nothing hangs, the script answers the setup,
    load and dispose requests it receives one by one and in their order:
    whatever else arrives in between, the messages it posts are exactly
    one per request, each of the handshake of its request and with the
    worker id of its request. Tasks and other messages are never
    answered by the script itself. *)
Theorem script_answers_requests_in_order
    (env : LoaderScript.Environment)
    (messages : list WorkerMessageContent.t) :
  LoaderScript.responsive env →
  let requests := filter (λ m, LoaderScript.isRequest m = true) messages in
  let answers :=
    LoaderScript.posted
      (LoaderScript.handleAll env messages LoaderScript.initial) in
  LoaderScript.postedId <$> answers
  = WorkerMessageContent.workerId <$> requests
  ∧ Forall2 (λ answer request,
      LoaderScript.answers (WorkerMessageContent.name request) answer = true)
      answers requests.
Proof.
  intros Henv requests answers.
  destruct (script_trace env messages LoaderScript.initial Henv)
    as (found & Hposted & Hids & Hall); [done|].
  subst answers. rewrite Hposted. done.
Qed.

Lemma script_answers_requests_in_order_witness :
  let node :=
    {| cwd := "/app"; resolve := String.concat "/";
       existsSync := String.eqb "/app/build/a.js";
       requireDefault := λ _, Some (Class "A") |} in
  let env :=
    {| LoaderScript.workerData :=
         {| LoaderScript.pointer := None;
            LoaderScript.sharedData := VUndefined;
            LoaderScript.options := None |};
       LoaderScript.getWorkerLoader := λ _ _,
         Return (LoaderScript.defaultLoader node
                   (DefaultWorkerLoader.mk ∅ VUndefined));
       LoaderScript.runOf := λ _ _, Return () |} in
  let messages :=
    [WorkerMessage.toJson (SystemMessage.setup 3);
     WorkerMessage.toJson (WorkerMessage.runTask 3 VNull);
     WorkerMessage.toJson (SystemMessage.load 3 (Some "b"));
     WorkerMessage.toJson (SystemMessage.load 3 (Some "a"));
     WorkerMessage.toJson (WorkerMessage.runTask 3 VNull);
     WorkerMessage.toJson (SystemMessage.dispose 3)] in
  LoaderScript.postedId
  <$> LoaderScript.posted
        (LoaderScript.handleAll env messages LoaderScript.initial)
  = [3; 3; 3; 3].
Proof.
  intros node env messages.
  apply (script_answers_requests_in_order env messages).
  split; [done|]. split; [|done].
  intros path dependenciesPath loader [= <-]. split; [done|].
  intros pointer heap. unfold LoaderScript.defaultLoader. simpl.
  assert (Hstring : ∀ s,
    (DefaultWorkerLoader.load node (DefaultWorkerLoader.mk ∅ VUndefined)
       s None heap).1 ≠ Pending).
  { intros s. unfold DefaultWorkerLoader.load.
    destruct (DefaultWorkerLoader.falsy s); [done|].
    destruct (existsSync node _); simpl; [done|].
    by rewrite bool_decide_eq_false_2 by (intros [? H]; done). }
  destruct pointer as [| |b|z|s|props]; try apply Hstring.
  - destruct (LoaderScript.truthy (VBool b)); [done|apply Hstring].
  - destruct (LoaderScript.truthy (VNumber z)); [done|apply Hstring].
  - done.
Defined.

(** X21: on a load request the script hands to [load] of the loader the
    data of the message when that is truthy, whatever its type, and the
    pointer of [workerData] only when it is falsy; the default loader
    answers a truthy value that is not a string with a [TypeError]. When
    the loader returns, the instance
    becomes the loaded worker and the answer is the completion; when it
    throws, the answer is the failure with that error and the worker
    loaded before stays loaded, so that a later task still runs on it. *)
Theorem script_load
    (env : LoaderScript.Environment) (message : WorkerMessageContent.t)
    (this : LoaderScript.t) (loader : LoaderScript.WorkerLoader)
    (task : WorkerMessageContent.t) :
  WorkerMessageContent.name message = WorkerMessageName.Load →
  WorkerMessageContent.name task = WorkerMessageName.RunTask →
  LoaderScript.workerLoader this = Some loader →
  let id := WorkerMessageContent.workerId message in
  let data := WorkerMessageContent.data message in
  let chosen :=
    if LoaderScript.truthy data then data
    else
      match LoaderScript.pointer (LoaderScript.workerData env) with
      | Some pointer => VString pointer
      | None => VUndefined
      end in
  let loaded :=
    LoaderScript.loadOf loader chosen (LoaderScript.heap this) in
  let after := (LoaderScript.messageHandler env message this).2 in
  LoaderScript.heap after = loaded.2
  ∧ (∀ node default heap,
       loader = LoaderScript.defaultLoader node default →
       LoaderScript.truthy chosen = true →
       (∀ s, chosen ≠ VString s) →
       LoaderScript.loadOf loader chosen heap
       = (Throw (TypeError "filePath.endsWith is not a function"), heap))
  ∧ (∀ instance, loaded.1 = Return instance →
       LoaderScript.worker after = Some instance
       ∧ LoaderScript.posted after
         = LoaderScript.posted this ++ [LoaderScript.LoadComplete id])
  ∧ (∀ e, loaded.1 = Throw e →
       LoaderScript.worker after = LoaderScript.worker this
       ∧ LoaderScript.posted after
         = LoaderScript.posted this
           ++ [LoaderScript.LoadFailure id (LoaderScript.FromLoader e)]
       ∧ ∀ previous, LoaderScript.worker this = Some previous →
           LoaderScript.ran (LoaderScript.messageHandler env task after).2
           = LoaderScript.ran this
             ++ [(previous, WorkerMessageContent.data task)]).
Proof.
  intros Hname Htask Hloader id data chosen loaded after.
  assert (Hafter : after
    = let kept worker :=
        LoaderScript.mk worker (LoaderScript.workerLoader this) loaded.2
          (LoaderScript.posted this) (LoaderScript.ran this) in
      match loaded.1 with
      | Return instance =>
          LoaderScript.post (LoaderScript.LoadComplete id)
            (kept (Some instance))
      | Throw e =>
          LoaderScript.post
            (LoaderScript.LoadFailure id (LoaderScript.FromLoader e))
            (kept (LoaderScript.worker this))
      | Pending => kept (LoaderScript.worker this)
      end).
  { subst after. unfold LoaderScript.messageHandler.
    rewrite Hname. simpl.
    unfold LoaderScript.loadWorker. rewrite Hloader.
    change (LoaderScript.orPointer (WorkerMessageContent.data message)
              (LoaderScript.pointer (LoaderScript.workerData env)))
      with chosen.
    fold loaded.
    by destruct loaded as [[instance|e|] heap']. }
  clearbody after. subst after.
  assert (Htype : ∀ node default heap,
    loader = LoaderScript.defaultLoader node default →
    LoaderScript.truthy chosen = true →
    (∀ s, chosen ≠ VString s) →
    LoaderScript.loadOf loader chosen heap
    = (Throw (TypeError "filePath.endsWith is not a function"), heap)).
  { intros node default heap -> Htruthy Hstring. simpl.
    destruct chosen as [| |b|z|s|props]; try done.
    - by rewrite Htruthy.
    - by rewrite Htruthy.
    - by destruct (Hstring s). }
  destruct loaded as [[instance|e|] heap']; simpl.
  - split; [done|]. split; [exact Htype|].
    split; [by intros ? [= <-]|done].
  - split; [done|]. split; [exact Htype|]. split; [done|]. intros ? [= <-].
    split; [done|]. split; [done|]. intros previous Hprevious.
    unfold LoaderScript.messageHandler. rewrite Htask. simpl.
    by rewrite Hprevious.
  - split; [done|]. split; [exact Htype|]. split; done.
Qed.

Lemma script_load_witness :
  let node :=
    {| cwd := "/app"; resolve := String.concat "/";
       existsSync := String.eqb "/app/build/a.js";
       requireDefault := λ _, Some (Class "A") |} in
  let env :=
    {| LoaderScript.workerData :=
         {| LoaderScript.pointer := None;
            LoaderScript.sharedData := VUndefined;
            LoaderScript.options := None |};
       LoaderScript.getWorkerLoader := λ _ _,
         Return (LoaderScript.defaultLoader node
                   (DefaultWorkerLoader.mk ∅ VUndefined));
       LoaderScript.runOf := λ _ _, Return () |} in
  let loadA := WorkerMessage.toJson (SystemMessage.load 3 (Some "a")) in
  let loadB := WorkerMessage.toJson (SystemMessage.load 3 (Some "b")) in
  let load5 :=
    WorkerMessageContent.mk 3 WorkerMessageType.System
      WorkerMessageName.Load (VNumber 5) None in
  let task := WorkerMessage.toJson (WorkerMessage.runTask 3 (VNumber 1)) in
  let this :=
    LoaderScript.handleAll env
      [WorkerMessage.toJson (SystemMessage.setup 3); loadA]
      LoaderScript.initial in
  let after := (LoaderScript.messageHandler env loadB this).2 in
  LoaderScript.worker after
  = Some {| address := 0; classOf := Class "A"; constructorArgs := None |}
  ∧ LoaderScript.posted after
    = LoaderScript.posted this
      ++ [LoaderScript.LoadFailure 3
            (LoaderScript.FromLoader (Error (workerNotFoundMessage "b")))]
  ∧ LoaderScript.ran (LoaderScript.messageHandler env task after).2
    = [({| address := 0; classOf := Class "A"; constructorArgs := None |},
        VNumber 1)]
  ∧ LoaderScript.posted (LoaderScript.messageHandler env load5 this).2
    = LoaderScript.posted this
      ++ [LoaderScript.LoadFailure 3
            (LoaderScript.FromLoader
               (TypeError "filePath.endsWith is not a function"))].
Proof.
  intros node env loadA loadB load5 task this after.
  destruct (script_load env loadB this
              (LoaderScript.defaultLoader node
                 (DefaultWorkerLoader.mk ∅ VUndefined)) task
              eq_refl eq_refl eq_refl) as (_ & _ & _ & Hthrow).
  destruct (Hthrow (Error (workerNotFoundMessage "b")) eq_refl)
    as (Hworker & Hposted & Hran).
  split; [exact Hworker|]. split; [exact Hposted|].
  split;
    [apply (Hran {| address := 0; classOf := Class "A";
                    constructorArgs := None |}); reflexivity|].
  destruct (script_load env load5 this
              (LoaderScript.defaultLoader node
                 (DefaultWorkerLoader.mk ∅ VUndefined)) task
              eq_refl eq_refl eq_refl) as (_ & _ & _ & Htype).
  apply (Htype (TypeError "filePath.endsWith is not a function") eq_refl).
Defined.

Section ScriptDefault.

Import LoaderScript.

(** The pointer the script hands to the loader for the load request a
    proxy sends, when [workerData] has no pointer, makes the default
    loader do what it does for the pointer the proxy was given. *)
Lemma default_load_chosen node loader pointer heap :
  loadOf (defaultLoader node loader)
    (orPointer (SystemMessage.pointerData pointer) None) heap
  = DefaultWorkerLoader.load node loader pointer None heap.
Proof.
  destruct pointer as [s|]; [|done]. unfold orPointer. simpl.
  destruct (String.eqb_spec s EmptyString) as [->|Hs]; done.
Qed.

End ScriptDefault.

(** X22: in a thread started by a proxy, where [workerData] has no
    pointer, and with the default loader, the answer to the load request
    that [load(pointer)] of the proxy sends is decided by
    [DefaultWorkerLoader.load] on that pointer: the completion when it
    returns, with its instance as the loaded worker, the failure with its
    error when it throws. A load without pointer is therefore always
    answered with the undefined-pointer failure. *)
Theorem script_default_loader
    (node : Node) (loader : DefaultWorkerLoader.t)
    (env : LoaderScript.Environment) (this : LoaderScript.t)
    (id : Z) (pointer : option string) :
  LoaderScript.pointer (LoaderScript.workerData env) = None →
  LoaderScript.workerLoader this
  = Some (LoaderScript.defaultLoader node loader) →
  let request := WorkerMessage.toJson (SystemMessage.load id pointer) in
  let loaded :=
    DefaultWorkerLoader.load node loader pointer None
      (LoaderScript.heap this) in
  let result := LoaderScript.messageHandler env request this in
  result.1 = Return ()
  ∧ (∀ instance, loaded.1 = Return instance →
       LoaderScript.posted result.2
       = LoaderScript.posted this ++ [LoaderScript.LoadComplete id]
       ∧ LoaderScript.worker result.2 = Some instance)
  ∧ (∀ e, loaded.1 = Throw e →
       LoaderScript.posted result.2
       = LoaderScript.posted this
         ++ [LoaderScript.LoadFailure id (LoaderScript.FromLoader e)]
       ∧ LoaderScript.worker result.2 = LoaderScript.worker this)
  ∧ (DefaultWorkerLoader.falsy pointer = true →
     loaded.1 = Throw (UndefinedPointerError undefinedPointerMessage)).
Proof.
  intros Hpointer Hloader request loaded result.
  assert (Hresult : result
    = let kept worker :=
        LoaderScript.mk worker (LoaderScript.workerLoader this) loaded.2
          (LoaderScript.posted this) (LoaderScript.ran this) in
      match loaded.1 with
      | Return instance =>
          (Return (),
           LoaderScript.post (LoaderScript.LoadComplete id)
             (kept (Some instance)))
      | Throw e =>
          (Return (),
           LoaderScript.post
             (LoaderScript.LoadFailure id (LoaderScript.FromLoader e))
             (kept (LoaderScript.worker this)))
      | Pending => (Pending, kept (LoaderScript.worker this))
      end).
  { subst result. unfold LoaderScript.messageHandler. simpl.
    unfold LoaderScript.loadWorker. rewrite Hloader, Hpointer.
    change (WorkerMessageContent.data request)
      with (SystemMessage.pointerData pointer).
    rewrite default_load_chosen. fold loaded.
    by destruct loaded as [[instance|e|] heap']. }
  clearbody result. subst result.
  assert (Hsettles : loaded.1 ≠ Pending).
  { subst loaded. unfold DefaultWorkerLoader.load.
    destruct (DefaultWorkerLoader.falsy pointer); [done|].
    destruct (existsSync _ _).
    - by destruct (requireDefault _ _).
    - case_bool_decide as Hbound; [|done].
      destruct Hbound as [c Hc]. by rewrite Hc. }
  split; [|split; [|split]].
  - by destruct loaded as [[instance|e|] heap'].
  - intros instance Hreturn. rewrite Hreturn. done.
  - intros e Hthrow. rewrite Hthrow. done.
  - intros Hfalsy. subst loaded. unfold DefaultWorkerLoader.load.
    by rewrite Hfalsy.
Qed.

Lemma script_default_loader_witness :
  let node :=
    {| cwd := "/app"; resolve := String.concat "/";
       existsSync := λ _, false; requireDefault := λ _, None |} in
  let loader := DefaultWorkerLoader.mk ∅ VUndefined in
  let env :=
    {| LoaderScript.workerData :=
         {| LoaderScript.pointer := None;
            LoaderScript.sharedData := VUndefined;
            LoaderScript.options := None |};
       LoaderScript.getWorkerLoader := λ _ _,
         Return (LoaderScript.defaultLoader node loader);
       LoaderScript.runOf := λ _ _, Return () |} in
  let this :=
    LoaderScript.mk None (Some (LoaderScript.defaultLoader node loader))
      0 [] [] in
  let result :=
    LoaderScript.messageHandler env
      (WorkerMessage.toJson (SystemMessage.load 3 None)) this in
  LoaderScript.posted result.2
  = [] ++ [LoaderScript.LoadFailure 3
             (LoaderScript.FromLoader
                (UndefinedPointerError undefinedPointerMessage))]
  ∧ LoaderScript.worker result.2 = None.
Proof.
  intros node loader env this.
  destruct (script_default_loader node loader env this 3 None
              eq_refl eq_refl) as (_ & _ & Hthrow & _).
  apply Hthrow. reflexivity.
Defined.

(** X23: a dispose request always completes and leaves no worker loaded;
    a task that arrives while no worker is loaded, as before the first
    load or after a dispose, makes the handler throw: it runs on nothing,
    and nothing is posted to the parent about it. *)
Theorem script_dispose_then_run
    (env : LoaderScript.Environment) (this : LoaderScript.t)
    (request task : WorkerMessageContent.t) :
  WorkerMessageContent.name request = WorkerMessageName.Dispose →
  WorkerMessageContent.name task = WorkerMessageName.RunTask →
  let disposed := LoaderScript.messageHandler env request this in
  disposed.1 = Return ()
  ∧ LoaderScript.worker disposed.2 = None
  ∧ LoaderScript.posted disposed.2
    = LoaderScript.posted this
      ++ [LoaderScript.DisposeComplete
            (WorkerMessageContent.workerId request)]
  ∧ LoaderScript.messageHandler env task disposed.2
    = (Throw LoaderScript.NoWorker, disposed.2)
  ∧ LoaderScript.messageHandler env task LoaderScript.initial
    = (Throw LoaderScript.NoWorker, LoaderScript.initial).
Proof.
  intros Hrequest Htask disposed. subst disposed.
  unfold LoaderScript.messageHandler. rewrite Hrequest, Htask. done.
Qed.

Lemma script_dispose_then_run_witness :
  let env :=
    {| LoaderScript.workerData :=
         {| LoaderScript.pointer := None;
            LoaderScript.sharedData := VUndefined;
            LoaderScript.options := None |};
       LoaderScript.getWorkerLoader := λ _ _,
         Throw (LoaderUtils.InvalidPathError "none");
       LoaderScript.runOf := λ _ _, Return () |} in
  let this :=
    LoaderScript.mk
      (Some {| address := 0; classOf := Class "A";
               constructorArgs := None |}) None 1 [] [] in
  let request := WorkerMessage.toJson (SystemMessage.dispose 3) in
  let task := WorkerMessage.toJson (WorkerMessage.runTask 3 VNull) in
  let disposed := LoaderScript.messageHandler env request this in
  disposed.1 = Return ()
  ∧ LoaderScript.worker disposed.2 = None
  ∧ LoaderScript.posted disposed.2 = [] ++ [LoaderScript.DisposeComplete 3]
  ∧ LoaderScript.messageHandler env task disposed.2
    = (Throw LoaderScript.NoWorker, disposed.2)
  ∧ LoaderScript.messageHandler env task LoaderScript.initial
    = (Throw LoaderScript.NoWorker, LoaderScript.initial).
Proof.
  intros env this request task.
  apply (script_dispose_then_run env this request task); reflexivity.
Defined.

(** X24: the script reacts to four message names only. A message with
    any other name, a pass-data message included, is taken from the
    queue without any effect: nothing is loaded, run or posted, and
    nothing is thrown. *)
Theorem script_ignores_other_messages
    (env : LoaderScript.Environment) (this : LoaderScript.t)
    (message : WorkerMessageContent.t) :
  WorkerMessageContent.name message
  ∉ [WorkerMessageName.Setup; WorkerMessageName.Load;
     WorkerMessageName.Dispose; WorkerMessageName.RunTask] →
  LoaderScript.messageHandler env message this = (Return (), this).
Proof.
  intros Hname. unfold LoaderScript.messageHandler.
  repeat match goal with
  | |- context [String.eqb ?a ?b] =>
      destruct (String.eqb_spec a b) as [Heq|_];
        [exfalso; apply Hname; rewrite Heq; set_solver|]
  end.
  done.
Qed.

Lemma script_ignores_other_messages_witness :
  let env :=
    {| LoaderScript.workerData :=
         {| LoaderScript.pointer := None;
            LoaderScript.sharedData := VUndefined;
            LoaderScript.options := None |};
       LoaderScript.getWorkerLoader := λ _ _,
         Throw (LoaderUtils.InvalidPathError "none");
       LoaderScript.runOf := λ _ _, Return () |} in
  let passData :=
    WorkerMessage.toJson (WorkerMessage.use 3 (VString "value")) in
  LoaderScript.messageHandler env passData LoaderScript.initial
  = (Return (), LoaderScript.initial).
Proof.
  intros env passData.
  apply (script_ignores_other_messages env LoaderScript.initial passData).
  vm_compute. intros Hin.
  repeat (apply elem_of_cons in Hin as [Hin|Hin]; [discriminate Hin|]).
  by apply elem_of_nil in Hin.
Defined.

(** ** The worker unit and the predicates of a message *)

(** X25: a record posted by [resolve], [reject] or [progress], once
    decoded by [WorkerMessage.create] as the proxy does for a subscriber,
    satisfies exactly one of [isTaskResolved], [isTaskRejected] and
    [isTaskProgress], the one of the call that posted it; it carries the
    id of the thread, the data given to [resolve] or [progress], and for
    [reject] a null data and the normalised error. *)
Theorem posted_record_kind
    (c : Worker.Call) (this : Worker.t) (record : WorkerMessageContent.t) :
  record ∈ Worker.posted c this →
  let m := WorkerMessage.create record in
  (WorkerMessage.isTaskResolved m, WorkerMessage.isTaskRejected m,
   WorkerMessage.isTaskProgress m)
  = match c with
    | Worker.Resolve _ => (true, false, false)
    | Worker.Reject _ => (false, true, false)
    | Worker.Progress _ => (false, false, true)
    end
  ∧ WorkerMessage.workerId m = Worker.threadId this
  ∧ match c with
    | Worker.Resolve data | Worker.Progress data =>
        WorkerMessage.data m = data
    | Worker.Reject error =>
        WorkerMessage.data m = VNull
        ∧ WorkerMessage.error m
          = Some (WorkerMessage.errorJson
                    (default WorkerMessage.emptyObject error))
    end.
Proof.
  destruct c as [data|error|data].
  - rewrite posted_resolve. destruct (Worker.isRejected this).
    + by intros ?%elem_of_nil.
    + by intros ->%list_elem_of_singleton.
  - rewrite posted_reject. intros ->%list_elem_of_singleton. simpl.
    split; [done|]. split; [done|]. split; [done|].
    destruct error as [error|]; simpl; [|done].
    by rewrite errorJson_idempotent.
  - unfold Worker.posted. simpl. rewrite drop_app_length.
    by intros ->%list_elem_of_singleton.
Qed.

Lemma posted_record_kind_witness :
  let this := Worker.new 7 [] in
  let record :=
    WorkerMessage.toJson
      (WorkerMessage.taskRejected 7 (Some (newError "no" "at run"))) in
  let m := WorkerMessage.create record in
  record ∈ Worker.posted (Worker.Reject (Some (newError "no" "at run"))) this
  ∧ (WorkerMessage.isTaskResolved m, WorkerMessage.isTaskRejected m,
     WorkerMessage.isTaskProgress m) = (false, true, false).
Proof.
  intros this record m.
  assert (Hin : record
    ∈ Worker.posted (Worker.Reject (Some (newError "no" "at run"))) this)
    by (apply list_elem_of_singleton; reflexivity).
  split; [exact Hin|].
  apply (posted_record_kind
           (Worker.Reject (Some (newError "no" "at run"))) this record Hin).
Defined.
